(** * The to-do list component of [tolist/components/TodoList.tsx]

    A shallow embedding of the state management, persistence and export
    logic of the React component [TodoList], and the properties of its
    specification that hold (or fail) on it.

    Conventions of the embedding.
    - A JavaScript string is the list of its UTF-16 code units.
    - A JavaScript number that holds an integer (an id produced by
      [Date.now()], a length, a count) is a [Z].
    - [Set<number>] is a [gset Z]; [localStorage] is a [gmap] from keys to
      values.
    - React state is threaded explicitly: a handler is a function from the
      state it closes over to the state after its setters have run.
    - The readings of the clock taken by a handler are arguments of it. *)

From Stdlib Require Import ZArith NArith List String Ascii Bool Lia.
From Stdlib Require Import DecimalPos DecimalFacts.
From stdpp Require Import base gmap sets list strings sorting.

Local Open Scope N_scope.
Local Set Warnings "-register-all".
Local Set Warnings "-clear-no-such-hyp".


(** ** JavaScript strings *)

Abbreviation jsstring := (list N).

(** Source literals are written as UTF-8 text and decoded to UTF-16 code
    units, so that the definitions below show the literals of the source. *)

Fixpoint utf8_decode (bs : list N) : list N :=
  match bs with
  | [] => []
  | b0 :: r0 =>
    if b0 <? 0x80 then b0 :: utf8_decode r0
    else
      match r0 with
      | [] => []
      | b1 :: r1 =>
        if b0 <? 0xE0 then
          N.lor (N.shiftl (N.land b0 0x1F) 6) (N.land b1 0x3F) :: utf8_decode r1
        else
          match r1 with
          | [] => []
          | b2 :: r2 =>
            if b0 <? 0xF0 then
              N.lor (N.shiftl (N.land b0 0x0F) 12)
                (N.lor (N.shiftl (N.land b1 0x3F) 6) (N.land b2 0x3F))
                :: utf8_decode r2
            else
              match r2 with
              | [] => []
              | b3 :: r3 =>
                N.lor (N.shiftl (N.land b0 0x07) 18)
                  (N.lor (N.shiftl (N.land b1 0x3F) 12)
                     (N.lor (N.shiftl (N.land b2 0x3F) 6) (N.land b3 0x3F)))
                  :: utf8_decode r3
              end
          end
      end
  end.

Definition utf16_encode (cp : N) : list N :=
  if cp <? 0x10000 then [cp]
  else
    let c := cp - 0x10000 in
    [0xD800 + N.shiftr c 10; 0xDC00 + N.land c 0x3FF].

Definition js (s : string) : jsstring :=
  flat_map utf16_encode (utf8_decode (map N_of_ascii (list_ascii_of_string s))).

(** Code units that have no spelling inside a literal of this file. *)
Definition QUOTE : N := 0x22.
Definition BACKSLASH : N := 0x5C.
Definition TAB : N := 0x09.
Definition LF : N := 0x0A.
Definition BOM : N := 0xFEFF.

(** [WhiteSpace] and [LineTerminator] of ECMAScript, the code units that
    [String.prototype.trim] removes. *)
Definition isWhiteSpace (c : N) : bool :=
  (c =? 0x09) || (c =? 0x0A) || (c =? 0x0B) || (c =? 0x0C) || (c =? 0x0D)
  || (c =? 0x20) || (c =? 0xA0) || (c =? 0x1680)
  || ((0x2000 <=? c) && (c <=? 0x200A))
  || (c =? 0x2028) || (c =? 0x2029) || (c =? 0x202F) || (c =? 0x205F)
  || (c =? 0x3000) || (c =? 0xFEFF).

Fixpoint trimStart (s : jsstring) : jsstring :=
  match s with
  | c :: r => if isWhiteSpace c then trimStart r else s
  | [] => []
  end.

Definition trimEnd (s : jsstring) : jsstring := rev (trimStart (rev s)).

Definition trim (s : jsstring) : jsstring := trimEnd (trimStart s).

(** [Array.prototype.join] on an array of strings. *)
Fixpoint join (sep : jsstring) (xs : list jsstring) : jsstring :=
  match xs with
  | [] => []
  | x :: rest =>
    match rest with
    | [] => x
    | _ :: _ => x ++ sep ++ join sep rest
    end
  end.

(** [s.replace(/c/g, by)] for a pattern that is the single code unit [c]
    and a replacement [by] without [$]. *)
Definition replaceAll (c : N) (by_ : jsstring) (s : jsstring) : jsstring :=
  flat_map (fun x => if x =? c then by_ else [x]) s.

(** [String.prototype.repeat]. *)
Fixpoint repeat_ (s : jsstring) (n : nat) : jsstring :=
  match n with
  | O => []
  | S k => s ++ repeat_ s k
  end.

(** [String(s).padStart(n, "0")]. *)
Definition padStart0 (n : nat) (s : jsstring) : jsstring :=
  repeat_ [0x30] (n - length s) ++ s.

(** Decimal digits of a number that holds an integer (below 10^21 in
    magnitude, where [Number::toString] uses no exponent). *)
Fixpoint uint_units (d : Decimal.uint) : jsstring :=
  match d with
  | Decimal.Nil => []
  | Decimal.D0 d => 0x30 :: uint_units d
  | Decimal.D1 d => 0x31 :: uint_units d
  | Decimal.D2 d => 0x32 :: uint_units d
  | Decimal.D3 d => 0x33 :: uint_units d
  | Decimal.D4 d => 0x34 :: uint_units d
  | Decimal.D5 d => 0x35 :: uint_units d
  | Decimal.D6 d => 0x36 :: uint_units d
  | Decimal.D7 d => 0x37 :: uint_units d
  | Decimal.D8 d => 0x38 :: uint_units d
  | Decimal.D9 d => 0x39 :: uint_units d
  end.

Definition Number_toString (z : Z) : jsstring :=
  match z with
  | Z0 => [0x30]
  | Zpos p => uint_units (Pos.to_uint p)
  | Zneg p => 0x2D :: uint_units (Pos.to_uint p)
  end.

Definition Boolean_toString (b : bool) : jsstring :=
  if b then js "true" else js "false".

Example js_ascii : js "ID,Text" = [0x49; 0x44; 0x2C; 0x54; 0x65; 0x78; 0x74].
Proof. reflexivity. Qed.

Example js_bmp : js "已完成" = [0x5DF2; 0x5B8C; 0x6210].
Proof. reflexivity. Qed.

Example js_astral : js "🔴" = [0xD83D; 0xDD34].
Proof. reflexivity. Qed.

Example Number_toString_ex :
  Number_toString 1730620800000 = js "1730620800000"
  /\ Number_toString (-42) = js "-42" /\ Number_toString 0 = js "0".
Proof. repeat split; reflexivity. Qed.

Example trim_ex : trim (js "  Buy milk 	") = js "Buy milk".
Proof. reflexivity. Qed.

(** ** JSON values

    The values that [JSON.parse] produces and [JSON.stringify] consumes.
    The properties of an object are kept in the order in which the object
    enumerates them. A number is an integer in the range of the safe
    integers; other numbers are outside the model (see [JSON_parse]). *)

Inductive JSValue : Type :=
| JNull
| JBool (b : bool)
| JNum (n : Z)
| JStr (s : jsstring)
| JArr (elems : list JSValue)
| JObj (props : list (jsstring * JSValue)).

Definition isDigit (c : N) : bool := (0x30 <=? c) && (c <=? 0x39).

(** The number that a run of decimal digits spells. *)
Fixpoint units_uint (ds : jsstring) : Decimal.uint :=
  match ds with
  | [] => Decimal.Nil
  | c :: r =>
    match c - 0x30 with
    | 0 => Decimal.D0 (units_uint r)
    | 1 => Decimal.D1 (units_uint r)
    | 2 => Decimal.D2 (units_uint r)
    | 3 => Decimal.D3 (units_uint r)
    | 4 => Decimal.D4 (units_uint r)
    | 5 => Decimal.D5 (units_uint r)
    | 6 => Decimal.D6 (units_uint r)
    | 7 => Decimal.D7 (units_uint r)
    | 8 => Decimal.D8 (units_uint r)
    | _ => Decimal.D9 (units_uint r)
    end
  end.

Definition digits_value (ds : jsstring) : N := Pos.of_uint (units_uint ds).

(** An array index is the canonical decimal spelling of an integer
    between 0 and 2^32 - 2. *)
Definition array_index (k : jsstring) : option N :=
  match k with
  | [] => None
  | c :: r =>
    if forallb isDigit k
       && (negb (c =? 0x30) || match r with [] => true | _ => false end)
       && (length k <=? 10)%nat && (digits_value k <=? 4294967294)
    then Some (digits_value k) else None
  end.

Definition has_key (k : jsstring) (props : list (jsstring * JSValue)) : bool :=
  existsb (fun kv => bool_decide (fst kv = k)) props.

Fixpoint replace_value (k : jsstring) (v : JSValue)
    (props : list (jsstring * JSValue)) : list (jsstring * JSValue) :=
  match props with
  | [] => []
  | (k', v') :: r =>
    if bool_decide (k' = k) then (k', v) :: r
    else (k', v') :: replace_value k v r
  end.

(** Insertion of a new array index [i] spelled [k]: after the smaller
    indices, before the larger ones and before every other key. *)
Fixpoint insert_index (i : N) (k : jsstring) (v : JSValue)
    (props : list (jsstring * JSValue)) : list (jsstring * JSValue) :=
  match props with
  | [] => [(k, v)]
  | (k', v') :: r =>
    match array_index k' with
    | Some j => if j <? i then (k', v') :: insert_index i k v r
                else (k, v) :: props
    | None => (k, v) :: props
    end
  end.

(** [CreateDataProperty]: a key that is present keeps its place and takes
    the new value; a new key is enumerated among the array indices in
    ascending order, or else last. *)
Definition obj_set (k : jsstring) (v : JSValue)
    (props : list (jsstring * JSValue)) : list (jsstring * JSValue) :=
  if has_key k props then replace_value k v props
  else
    match array_index k with
    | Some i => insert_index i k v props
    | None => props ++ [(k, v)]
    end.

Fixpoint obj_get (k : jsstring) (props : list (jsstring * JSValue))
    : option JSValue :=
  match props with
  | [] => None
  | (k', v) :: r => if bool_decide (k' = k) then Some v else obj_get k r
  end.

(** [ToBoolean]. *)
Definition ToBoolean (v : JSValue) : bool :=
  match v with
  | JNull => false
  | JBool b => b
  | JNum n => negb (n =? 0)%Z
  | JStr s => match s with [] => false | _ => true end
  | JArr _ | JObj _ => true
  end.

(** *** [JSON.stringify] *)

Definition hex_digit (n : N) : N :=
  if n <? 10 then 0x30 + n else 0x61 + (n - 10).

Definition unicode_escape (c : N) : jsstring :=
  [BACKSLASH; 0x75;
   hex_digit (N.land (N.shiftr c 12) 15); hex_digit (N.land (N.shiftr c 8) 15);
   hex_digit (N.land (N.shiftr c 4) 15); hex_digit (N.land c 15)].

Definition isHighSurrogate (c : N) : bool := (0xD800 <=? c) && (c <=? 0xDBFF).
Definition isLowSurrogate (c : N) : bool := (0xDC00 <=? c) && (c <=? 0xDFFF).

Fixpoint quote_units (s : jsstring) : jsstring :=
  match s with
  | [] => []
  | c :: r =>
    if c =? 0x08 then BACKSLASH :: 0x62 :: quote_units r
    else if c =? 0x09 then BACKSLASH :: 0x74 :: quote_units r
    else if c =? 0x0A then BACKSLASH :: 0x6E :: quote_units r
    else if c =? 0x0C then BACKSLASH :: 0x66 :: quote_units r
    else if c =? 0x0D then BACKSLASH :: 0x72 :: quote_units r
    else if c =? QUOTE then BACKSLASH :: QUOTE :: quote_units r
    else if c =? BACKSLASH then BACKSLASH :: BACKSLASH :: quote_units r
    else if c <? 0x20 then unicode_escape c ++ quote_units r
    else if isHighSurrogate c then
      match r with
      | d :: r' =>
        if isLowSurrogate d then c :: d :: quote_units r'
        else unicode_escape c ++ quote_units r
      | [] => unicode_escape c
      end
    else if isLowSurrogate c then unicode_escape c ++ quote_units r
    else c :: quote_units r
  end.

Definition QuoteJSONString (s : jsstring) : jsstring :=
  QUOTE :: quote_units s ++ [QUOTE].

Definition isEmpty {A : Type} (l : list A) : bool :=
  match l with [] => true | _ => false end.

(** [SerializeJSONProperty] with the current [indent] and the [gap] of one
    level; [gap] is empty for [JSON.stringify(v)]. *)
Fixpoint serialize (gap indent : jsstring) (v : JSValue) : jsstring :=
  match v with
  | JNull => js "null"
  | JBool b => Boolean_toString b
  | JNum n => Number_toString n
  | JStr s => QuoteJSONString s
  | JArr elems =>
    let stepback := indent in
    let indent := indent ++ gap in
    let partial := map (serialize gap indent) elems in
    if isEmpty partial then js "[]"
    else if isEmpty gap then js "[" ++ join (js ",") partial ++ js "]"
    else js "[" ++ LF :: indent ++ join (js "," ++ LF :: indent) partial
         ++ LF :: stepback ++ js "]"
  | JObj props =>
    let stepback := indent in
    let indent := indent ++ gap in
    let partial :=
      map (fun kv =>
             QuoteJSONString (fst kv) ++ js ":"
             ++ (if isEmpty gap then [] else js " ")
             ++ serialize gap indent (snd kv)) props in
    if isEmpty partial then js "{}"
    else if isEmpty gap then js "{" ++ join (js ",") partial ++ js "}"
    else js "{" ++ LF :: indent ++ join (js "," ++ LF :: indent) partial
         ++ LF :: stepback ++ js "}"
  end.

(** [JSON.stringify(v)] and [JSON.stringify(v, null, n)]. *)
Definition JSON_stringify (v : JSValue) : jsstring := serialize [] [] v.

Definition JSON_stringify_indent (n : nat) (v : JSValue) : jsstring :=
  serialize (repeat_ (js " ") (Nat.min n 10)) [] v.

(** *** [JSON.parse]

    A recursive-descent reading of the JSON grammar. The call either
    returns a value, or throws a [SyntaxError], or the text holds a number
    that the model does not cover (a fraction, an exponent, or an integer
    that is not safe), in which case the model says nothing. *)

Inductive parse_result (A : Type) : Type :=
| Parsed (a : A)
| SyntaxError
| OutsideModel.

Arguments Parsed {A} a.
Arguments SyntaxError {A}.
Arguments OutsideModel {A}.

Definition isJSONWhiteSpace (c : N) : bool :=
  (c =? 0x09) || (c =? 0x0A) || (c =? 0x0D) || (c =? 0x20).

Fixpoint skip_ws (s : jsstring) : jsstring :=
  match s with
  | c :: r => if isJSONWhiteSpace c then skip_ws r else s
  | [] => []
  end.

Definition hex_value (c : N) : option N :=
  if isDigit c then Some (c - 0x30)
  else if (0x61 <=? c) && (c <=? 0x66) then Some (c - 0x61 + 10)
  else if (0x41 <=? c) && (c <=? 0x46) then Some (c - 0x41 + 10)
  else None.

Definition escape_char (e : N) : option N :=
  if e =? QUOTE then Some QUOTE
  else if e =? BACKSLASH then Some BACKSLASH
  else if e =? 0x2F then Some 0x2F
  else if e =? 0x62 then Some 0x08
  else if e =? 0x66 then Some 0x0C
  else if e =? 0x6E then Some 0x0A
  else if e =? 0x72 then Some 0x0D
  else if e =? 0x74 then Some 0x09
  else None.

Definition cons_unit (c : N) (res : parse_result (jsstring * jsstring))
    : parse_result (jsstring * jsstring) :=
  match res with
  | Parsed (s, rest) => Parsed (c :: s, rest)
  | SyntaxError => SyntaxError
  | OutsideModel => OutsideModel
  end.

(** The characters of a string literal after its opening quote, and the
    text after its closing quote. *)
Fixpoint parse_chars (s : jsstring) : parse_result (jsstring * jsstring) :=
  match s with
  | [] => SyntaxError
  | c :: r =>
    if c =? QUOTE then Parsed ([], r)
    else if c =? BACKSLASH then
      match r with
      | [] => SyntaxError
      | e :: r1 =>
        if e =? 0x75 then
          match r1 with
          | h1 :: h2 :: h3 :: h4 :: r2 =>
            match hex_value h1, hex_value h2, hex_value h3, hex_value h4 with
            | Some a, Some b, Some c, Some d =>
              cons_unit (4096 * a + 256 * b + 16 * c + d) (parse_chars r2)
            | _, _, _, _ => SyntaxError
            end
          | _ => SyntaxError
          end
        else
          match escape_char e with
          | Some x => cons_unit x (parse_chars r1)
          | None => SyntaxError
          end
      end
    else if c <? 0x20 then SyntaxError
    else cons_unit c (parse_chars r)
  end.

Fixpoint span_digits (s : jsstring) : jsstring * jsstring :=
  match s with
  | c :: r =>
    if isDigit c then let (d, rest) := span_digits r in (c :: d, rest)
    else ([], s)
  | [] => ([], [])
  end.

Definition MAX_SAFE_INTEGER : N := 9007199254740991.

(** A number literal: an optional minus sign, then a single zero or a
    run of digits that does not start with zero, then an optional fraction
    (a dot and at least one digit), then an optional exponent (e or E, an
    optional sign, at least one digit). *)
Definition parse_number (s : jsstring) : parse_result (Z * jsstring) :=
  let (negative, s1) :=
    match s with
    | c :: r => if c =? 0x2D then (true, r) else (false, s)
    | [] => (false, s)
    end in
  let (int, s2) :=
    match s1 with
    | c :: r => if c =? 0x30 then ([c], r) else span_digits s1
    | [] => ([], [])
    end in
  if isEmpty int then SyntaxError
  else
    match s2 with
    | c :: r =>
      if c =? 0x2E then
        if isEmpty (fst (span_digits r)) then SyntaxError else OutsideModel
      else if (c =? 0x65) || (c =? 0x45) then
        let r' :=
          match r with
          | sg :: r1 => if (sg =? 0x2B) || (sg =? 0x2D) then r1 else r
          | [] => r
          end in
        if isEmpty (fst (span_digits r')) then SyntaxError else OutsideModel
      else if digits_value int <=? MAX_SAFE_INTEGER then
        Parsed (if negative then (- Z.of_N (digits_value int))%Z
                else Z.of_N (digits_value int), s2)
      else OutsideModel
    | [] =>
      if digits_value int <=? MAX_SAFE_INTEGER then
        Parsed (if negative then (- Z.of_N (digits_value int))%Z
                else Z.of_N (digits_value int), s2)
      else OutsideModel
    end.

(** [expect lit s] is the text after the literal [lit] at the head of [s]. *)
Fixpoint expect (lit s : jsstring) : option jsstring :=
  match lit with
  | [] => Some s
  | c :: lit' =>
    match s with
    | c' :: s' => if c' =? c then expect lit' s' else None
    | [] => None
    end
  end.

Section Parser.
(** The parser of one value, as the parsers of elements and of members
    call it. *)
Variable parse_one : jsstring -> parse_result (JSValue * jsstring).

(** Elements of an array after [[] (not followed by []]); [acc] holds the
    elements read so far, last first. *)
Fixpoint parse_elements (fuel : nat) (acc : list JSValue) (s : jsstring)
    : parse_result (JSValue * jsstring) :=
  match fuel with
  | O => OutsideModel
  | S fuel =>
    match parse_one s with
    | Parsed (v, rest) =>
      match skip_ws rest with
      | c :: r =>
        if c =? 0x2C then parse_elements fuel (v :: acc) r
        else if c =? 0x5D then Parsed (JArr (rev (v :: acc)), r)
        else SyntaxError
      | [] => SyntaxError
      end
    | SyntaxError => SyntaxError
    | OutsideModel => OutsideModel
    end
  end.

(** Members of an object after [{] (not followed by [}]); [acc] holds the
    properties created so far. *)
Fixpoint parse_members (fuel : nat) (acc : list (jsstring * JSValue))
    (s : jsstring) : parse_result (JSValue * jsstring) :=
  match fuel with
  | O => OutsideModel
  | S fuel =>
    match skip_ws s with
    | q :: r0 =>
      if q =? QUOTE then
        match parse_chars r0 with
        | Parsed (k, r1) =>
          match skip_ws r1 with
          | c :: r2 =>
            if c =? 0x3A then
              match parse_one r2 with
              | Parsed (v, r3) =>
                match skip_ws r3 with
                | d :: r4 =>
                  if d =? 0x2C then parse_members fuel (obj_set k v acc) r4
                  else if d =? 0x7D then Parsed (JObj (obj_set k v acc), r4)
                  else SyntaxError
                | [] => SyntaxError
                end
              | SyntaxError => SyntaxError
              | OutsideModel => OutsideModel
              end
            else SyntaxError
          | [] => SyntaxError
          end
        | SyntaxError => SyntaxError
        | OutsideModel => OutsideModel
        end
      else SyntaxError
    | [] => SyntaxError
    end
  end.
End Parser.

Fixpoint parse_value (fuel : nat) (s : jsstring)
    : parse_result (JSValue * jsstring) :=
  match fuel with
  | O => OutsideModel
  | S fuel =>
    match skip_ws s with
    | [] => SyntaxError
    | c :: r =>
      if c =? 0x5B then
        match skip_ws r with
        | c' :: r' =>
          if c' =? 0x5D then Parsed (JArr [], r')
          else parse_elements (parse_value fuel) (length r) [] r
        | [] => SyntaxError
        end
      else if c =? 0x7B then
        match skip_ws r with
        | c' :: r' =>
          if c' =? 0x7D then Parsed (JObj [], r')
          else parse_members (parse_value fuel) (length r) [] r
        | [] => SyntaxError
        end
      else if c =? QUOTE then
        match parse_chars r with
        | Parsed (str, rest) => Parsed (JStr str, rest)
        | SyntaxError => SyntaxError
        | OutsideModel => OutsideModel
        end
      else if c =? 0x74 then
        match expect (js "true") (c :: r) with
        | Some rest => Parsed (JBool true, rest)
        | None => SyntaxError
        end
      else if c =? 0x66 then
        match expect (js "false") (c :: r) with
        | Some rest => Parsed (JBool false, rest)
        | None => SyntaxError
        end
      else if c =? 0x6E then
        match expect (js "null") (c :: r) with
        | Some rest => Parsed (JNull, rest)
        | None => SyntaxError
        end
      else
        match parse_number (c :: r) with
        | Parsed (n, rest) => Parsed (JNum n, rest)
        | SyntaxError => SyntaxError
        | OutsideModel => OutsideModel
        end
    end
  end.

Definition JSON_parse (s : jsstring) : parse_result JSValue :=
  match parse_value (S (length s)) s with
  | Parsed (v, rest) => if isEmpty (skip_ws rest) then Parsed v else SyntaxError
  | SyntaxError => SyntaxError
  | OutsideModel => OutsideModel
  end.

(** ** The clock

    A [Date] object is its time value (milliseconds since the epoch, UTC)
    together with the offset of the local time zone at that instant, as
    [getTimezoneOffset] reports it (minutes, UTC minus local). *)

Local Open Scope Z_scope.

Record Date : Type := mkDate { getTime : Z; getTimezoneOffset : Z }.

Definition msPerDay : Z := 86400000.

(** Year, month (1 to 12) and day of the month of a day number counted
    from the epoch, in the proleptic Gregorian calendar. *)
Definition civil_from_days (days : Z) : Z * Z * Z :=
  let z := days + 719468 in
  let era := z / 146097 in
  let doe := z - era * 146097 in
  let yoe := (doe - doe / 1460 + doe / 36524 - doe / 146096) / 365 in
  let doy := doe - (365 * yoe + yoe / 4 - yoe / 100) in
  let mp := (5 * doy + 2) / 153 in
  let d := doy - (153 * mp + 2) / 5 + 1 in
  let m := if mp <? 10 then mp + 3 else mp - 9 in
  (yoe + era * 400 + (if m <=? 2 then 1 else 0), m, d).

Definition YearFromTime (t : Z) : Z := fst (fst (civil_from_days (t / msPerDay))).
Definition MonthFromTime (t : Z) : Z := snd (fst (civil_from_days (t / msPerDay))) - 1.
Definition DateFromTime (t : Z) : Z := snd (civil_from_days (t / msPerDay)).
Definition HourFromTime (t : Z) : Z := (t / 3600000) mod 24.
Definition MinFromTime (t : Z) : Z := (t / 60000) mod 60.
Definition SecFromTime (t : Z) : Z := (t / 1000) mod 60.
Definition msFromTime (t : Z) : Z := t mod 1000.

Definition LocalTime (d : Date) : Z := getTime d - getTimezoneOffset d * 60000.

Definition getFullYear (d : Date) : Z := YearFromTime (LocalTime d).
Definition getMonth (d : Date) : Z := MonthFromTime (LocalTime d).
Definition getDate (d : Date) : Z := DateFromTime (LocalTime d).
Definition getHours (d : Date) : Z := HourFromTime (LocalTime d).
Definition getMinutes (d : Date) : Z := MinFromTime (LocalTime d).
Definition getSeconds (d : Date) : Z := SecFromTime (LocalTime d).

Definition pad (n : nat) (z : Z) : jsstring := padStart0 n (Number_toString z).

(** [Date.prototype.toISOString]: [YYYY-MM-DDTHH:mm:ss.sssZ] in UTC, the
    year with a sign and six digits when it is outside 0 to 9999. *)
Definition toISOString (d : Date) : jsstring :=
  let t := getTime d in
  let y := YearFromTime t in
  (if (0 <=? y) && (y <=? 9999) then pad 4 y
   else (if y <? 0 then js "-" else js "+") ++ pad 6 (Z.abs y))
  ++ js "-" ++ pad 2 (MonthFromTime t + 1)
  ++ js "-" ++ pad 2 (DateFromTime t)
  ++ js "T" ++ pad 2 (HourFromTime t)
  ++ js ":" ++ pad 2 (MinFromTime t)
  ++ js ":" ++ pad 2 (SecFromTime t)
  ++ js "." ++ pad 3 (msFromTime t) ++ js "Z".

Example toISOString_epoch :
  toISOString (mkDate 0 0) = js "1970-01-01T00:00:00.000Z".
Proof. reflexivity. Qed.

Example toISOString_ex :
  toISOString (mkDate 1709210096789 (-480)) = js "2024-02-29T12:34:56.789Z".
Proof. reflexivity. Qed.

(** ** What the host provides

    Two library functions are left to the host: the Unicode lower-casing
    of [String.prototype.toLowerCase] and the locale formatting of
    [Date.prototype.toLocaleString] for the locale [zh-CN]. Every result
    below holds for whatever functions the host supplies. *)

Class Runtime : Type := {
  toLowerCase : jsstring -> jsstring;
  toLocaleString_zhCN : Date -> jsstring
}.

(** ** The component *)

Inductive Priority : Type := high | medium | low.

Record Todo : Type := mkTodo {
  id : Z;
  text : jsstring;
  completed : bool;
  priority : Priority
}.

Inductive ExportFormat : Type := txt | json | csv.

Definition priorityLabels (p : Priority) : jsstring :=
  match p with
  | high => js "高"
  | medium => js "中"
  | low => js "低"
  end.

Global Instance Priority_eq_dec : EqDecision Priority.
Proof. solve_decision. Defined.

(** The state of the component: one field per [useState] hook that the
    handlers below read or write. ([isHydrated] belongs to the persistence
    effects, modelled further down.) *)
Record State : Type := mkState {
  todos : list Todo;
  inputValue : jsstring;
  selectedPriority : Priority;
  selectedIds : gset Z;
  exportDropdownOpen : bool
}.

Definition setTodos (v : list Todo) (s : State) : State :=
  mkState v (inputValue s) (selectedPriority s) (selectedIds s)
    (exportDropdownOpen s).
Definition setInputValue (v : jsstring) (s : State) : State :=
  mkState (todos s) v (selectedPriority s) (selectedIds s)
    (exportDropdownOpen s).
Definition setSelectedPriority (v : Priority) (s : State) : State :=
  mkState (todos s) (inputValue s) v (selectedIds s) (exportDropdownOpen s).
Definition setSelectedIds (v : gset Z) (s : State) : State :=
  mkState (todos s) (inputValue s) (selectedPriority s) v
    (exportDropdownOpen s).
Definition setExportDropdownOpen (v : bool) (s : State) : State :=
  mkState (todos s) (inputValue s) (selectedPriority s) (selectedIds s) v.

(** The state of a freshly mounted component. *)
Definition initialState : State := mkState [] [] medium ∅ false.

(** What a handler does to the outside: a blocking notice, or a file
    handed to the browser for download. *)
Inductive Effect : Type :=
| Alert (message : jsstring)
| Download (content filename mimeType : jsstring).

Section Component.
Context `{Runtime}.

(** [now] is the reading of [Date.now()]. *)
Definition addTodo (now : Z) (s : State) : State :=
  let trimmed := trim (inputValue s) in
  if negb (isEmpty trimmed) then
    let exists_ :=
      existsb
        (fun todo =>
           bool_decide (toLowerCase (text todo) = toLowerCase trimmed))
        (todos s) in
    let s :=
      if negb exists_ then
        let newTodo := mkTodo now trimmed false (selectedPriority s) in
        setTodos (todos s ++ [newTodo]) s
      else s in
    setSelectedPriority medium (setInputValue [] s)
  else s.

Definition toggleTodo (i : Z) (s : State) : State :=
  setTodos
    (map (fun todo =>
            if id todo =? i
            then mkTodo (id todo) (text todo) (negb (completed todo))
                   (priority todo)
            else todo)
       (todos s)) s.

Definition deleteTodo (i : Z) (s : State) : State :=
  let s' := setTodos (List.filter (fun todo => negb (id todo =? i)) (todos s)) s in
  let newSelected := selectedIds s ∖ {[ i ]} in
  setSelectedIds newSelected s'.

Definition toggleSelect (i : Z) (s : State) : State :=
  let newSelected :=
    if bool_decide (i ∈ selectedIds s) then selectedIds s ∖ {[ i ]}
    else selectedIds s ∪ {[ i ]} in
  setSelectedIds newSelected s.

Definition toggleSelectAll (s : State) : State :=
  if (size (selectedIds s) =? length (todos s))%nat then setSelectedIds ∅ s
  else setSelectedIds (list_to_set (map id (todos s))) s.

Definition batchDelete (s : State) : State :=
  setSelectedIds ∅
    (setTodos
       (List.filter (fun todo => negb (bool_decide (id todo ∈ selectedIds s)))
          (todos s)) s).

(** The object that a [Todo] is at run time: the literal built by
    [addTodo], whose key order the spread in [toggleTodo] keeps. *)
Definition Priority_toString (p : Priority) : jsstring :=
  match p with
  | high => js "high"
  | medium => js "medium"
  | low => js "low"
  end.

Definition Todo_toJS (t : Todo) : JSValue :=
  JObj [(js "id", JNum (id t)); (js "text", JStr (text t));
        (js "completed", JBool (completed t));
        (js "priority", JStr (Priority_toString (priority t)))].

Definition count (f : Todo -> bool) (l : list Todo) : Z :=
  Z.of_nat (length (List.filter f l)).

Definition priorityIcon (p : Priority) : jsstring :=
  match p with
  | high => js "🔴"
  | medium => js "🟡"
  | low => js "⚪"
  end.

Definition csvHeader : jsstring := js "ID,Text,Completed,CompletedText,Priority".

Definition csvRow (todo : Todo) : jsstring :=
  TAB :: Number_toString (id todo) ++ js ","
  ++ QUOTE :: replaceAll QUOTE [QUOTE; QUOTE] (text todo) ++ QUOTE :: js ","
  ++ Boolean_toString (completed todo) ++ js ","
  ++ (if completed todo then js "已完成" else js "未完成") ++ js ","
  ++ priorityLabels (priority todo).

Definition txtLine (todo : Todo) : jsstring :=
  js "[" ++ (if completed todo then js "✓" else js "✗") ++ js "] "
  ++ priorityIcon (priority todo) ++ js " ["
  ++ priorityLabels (priority todo) ++ js "] " ++ text todo.

(** [now] is the reading of [new Date()] at the head of the function. *)
Definition generateExportContent (format : ExportFormat) (now : Date)
    (todosToExport : list Todo) : jsstring :=
  let dateStr := toLocaleString_zhCN now in
  match format with
  | json =>
    JSON_stringify_indent 2
      (JObj [(js "exportTime", JStr (toISOString now));
             (js "total", JNum (Z.of_nat (length todosToExport)));
             (js "completed", JNum (count completed todosToExport));
             (js "todos", JArr (map Todo_toJS todosToExport))])
  | csv =>
    let csvRows := map csvRow todosToExport in
    BOM :: join [LF] (csvHeader :: csvRows)
  | txt =>
    let txtHeader :=
      js "待办事项列表 - 导出时间: " ++ dateStr ++ LF :: repeat_ (js "=") 50
      ++ [LF] in
    let txtBody := join [LF] (map txtLine todosToExport) in
    let txtFooter :=
      LF :: repeat_ (js "=") 50 ++ LF :: js "统计: 共"
      ++ Number_toString (Z.of_nat (length todosToExport)) ++ js "项 | 已完成"
      ++ Number_toString (count completed todosToExport) ++ js "项 | 未完成"
      ++ Number_toString (count (fun t => negb (completed t)) todosToExport)
      ++ js "项" ++ LF :: js "优先级: 高"
      ++ Number_toString
           (count (fun t => bool_decide (priority t = high)) todosToExport)
      ++ js "项 | 中"
      ++ Number_toString
           (count (fun t => bool_decide (priority t = medium)) todosToExport)
      ++ js "项 | 低"
      ++ Number_toString
           (count (fun t => bool_decide (priority t = low)) todosToExport)
      ++ js "项" in
    txtHeader ++ [LF] ++ txtBody ++ [LF] ++ txtFooter
  end.

Definition mimeTypes (format : ExportFormat) : jsstring :=
  match format with
  | txt => js "text/plain;charset=utf-8"
  | json => js "application/json;charset=utf-8"
  | csv => js "text/csv;charset=utf-8"
  end.

Definition ExportFormat_toString (format : ExportFormat) : jsstring :=
  match format with
  | txt => js "txt"
  | json => js "json"
  | csv => js "csv"
  end.

(** [now1] is the clock as [generateExportContent] reads it, [now2] the
    clock as the handler reads it for the file name; neither is read
    when the handler returns early. *)
Definition exportTodos (format : ExportFormat) (onlySelected : bool)
    (now1 now2 : Date) (s : State) : State * list Effect :=
  let todosToExport :=
    if onlySelected
    then List.filter (fun todo => bool_decide (id todo ∈ selectedIds s)) (todos s)
    else todos s in
  if (length todosToExport =? 0)%nat then
    (s, [Alert (if onlySelected then js "没有选中的待办事项"
                else js "没有待办事项可导出")])
  else
    let content := generateExportContent format now1 todosToExport in
    let now := now2 in
    let timestamp :=
      Number_toString (getFullYear now) ++ pad 2 (getMonth now + 1)
      ++ pad 2 (getDate now) ++ js "_" ++ pad 2 (getHours now)
      ++ pad 2 (getMinutes now) ++ pad 2 (getSeconds now) in
    let suffix := if onlySelected then js "_selected" else [] in
    let filename :=
      js "todos" ++ suffix ++ js "_" ++ timestamp ++ js "."
      ++ ExportFormat_toString format in
    (setExportDropdownOpen false s, [Download content filename (mimeTypes format)]).

(** The commands that the rendered component offers, each with the
    readings of the clock that its handler takes. *)
Inductive Command : Type :=
| TypeInput (v : jsstring)
| PickPriority (p : Priority)
| Add (now : Z)
| Toggle (i : Z)
| Delete (i : Z)
| Select (i : Z)
| SelectAll
| BatchDelete
| ToggleExportMenu
| Export (format : ExportFormat) (onlySelected : bool) (now1 now2 : Date).

Definition step (c : Command) (s : State) : State * list Effect :=
  match c with
  | TypeInput v => (setInputValue v s, [])
  | PickPriority p => (setSelectedPriority p s, [])
  | Add now => (addTodo now s, [])
  | Toggle i => (toggleTodo i s, [])
  | Delete i => (deleteTodo i s, [])
  | Select i => (toggleSelect i s, [])
  | SelectAll => (toggleSelectAll s, [])
  | BatchDelete => (batchDelete s, [])
  | ToggleExportMenu =>
    (setExportDropdownOpen (negb (exportDropdownOpen s)) s, [])
  | Export format onlySelected now1 now2 =>
    exportTodos format onlySelected now1 now2 s
  end.

Definition run (cs : list Command) (s : State) : State :=
  fold_left (fun s c => fst (step c s)) cs s.

(** [add] of the specification: the text is typed, the priority is
    picked, the button is pressed. *)
Definition add (text_ : jsstring) (p : Priority) (now : Z) (s : State)
    : State :=
  addTodo now (setSelectedPriority p (setInputValue text_ s)).

(** The ids that a run of commands generates, in the order of their
    generation: an id is generated when [addTodo] appends an item. *)
Fixpoint generatedIds (cs : list Command) (s : State) : list Z :=
  match cs with
  | [] => []
  | c :: cs' =>
    let s' := fst (step c s) in
    match c with
    | Add _ => map id (drop (length (todos s)) (todos s'))
    | _ => []
    end ++ generatedIds cs' s'
  end.
End Component.

(** A host for evaluating the component on concrete inputs: it lowers the
    letters A to Z only, which is what [toLowerCase] does on ASCII text,
    and formats a date the way [zh-CN] does ([Y/M/D HH:mm:ss]). *)
Definition ascii_toLowerCase (s : jsstring) : jsstring :=
  map (fun c => if ((0x41 <=? c) && (c <=? 0x5A))%N then (c + 0x20)%N else c) s.

Definition sample_toLocaleString (d : Date) : jsstring :=
  Number_toString (getFullYear d) ++ js "/" ++ Number_toString (getMonth d + 1)
  ++ js "/" ++ Number_toString (getDate d) ++ js " " ++ pad 2 (getHours d)
  ++ js ":" ++ pad 2 (getMinutes d) ++ js ":" ++ pad 2 (getSeconds d).

Definition sampleHost : Runtime :=
  {| toLowerCase := ascii_toLowerCase;
     toLocaleString_zhCN := sample_toLocaleString |}.

(** ** What the component renders

    The values that the markup derives from the state, and the conditions
    under which it renders the controls that issue the commands. *)

(** [checked] of the select-all check box. *)
Definition selectAllChecked (s : State) : bool :=
  (size (selectedIds s) =? length (todos s))%nat
  && (0 <? length (todos s))%nat.

(** [indeterminate] of the select-all check box, as its effect sets it. *)
Definition indeterminate (s : State) : bool :=
  (0 <? size (selectedIds s))%nat
  && (size (selectedIds s) <? length (todos s))%nat.

(** The control that issues the command is in the rendered markup: the
    input row always, the controls of an item for each item of the list,
    the tool bar when there is an item, the export menu when it is open,
    the entries for the selected items and the batch delete button when
    something is selected. *)
Definition rendered (c : Command) (s : State) : bool :=
  match c with
  | TypeInput _ | PickPriority _ | Add _ => true
  | Toggle i | Delete i | Select i =>
    existsb (fun todo => id todo =? i) (todos s)
  | SelectAll | ToggleExportMenu => (0 <? length (todos s))%nat
  | BatchDelete =>
    (0 <? length (todos s))%nat && (0 <? size (selectedIds s))%nat
  | Export _ onlySelected _ _ =>
    (0 <? length (todos s))%nat && exportDropdownOpen s
    && (if onlySelected then (0 <? size (selectedIds s))%nat else true)
  end.

(** ** Persistence

    The two persistence effects of the component. [JSON.parse] returns a
    value of type [any] and the load effect stores what it maps out of it
    without a check, so here the [todos] state holds JSON values, not
    [Todo] records; a [Todo] is stored as [Todo_toJS] of it. *)

Module Persistence.

Record World : Type := mkWorld {
  todos : list JSValue;
  isHydrated : bool;
  (** the microtask queued on mount has not run yet *)
  microtaskQueued : bool;
  localStorage : gmap (list N) (list N);
  (** the calls of [localStorage.setItem] so far, the latest first *)
  writes : list (list N * list N)
}.

(** [CopyDataProperties]: the own enumerable properties that a spread
    copies. *)
Definition indexed (vs : list JSValue) : list (jsstring * JSValue) :=
  imap (fun i v => (Number_toString (Z.of_nat i), v)) vs.

Definition own_props (v : JSValue) : list (jsstring * JSValue) :=
  match v with
  | JObj props => props
  | JArr elems => indexed elems
  | JStr s => indexed (map (fun c => JStr [c]) s)
  | JNull | JBool _ | JNum _ => []
  end.

Definition spread (v : JSValue) : list (jsstring * JSValue) :=
  fold_left (fun acc kv => obj_set (fst kv) (snd kv) acc) (own_props v) [].

(** [todo.priority]: [None] when the access throws a [TypeError] (on
    [null]), [Some None] when it yields [undefined]. No prototype of a
    JSON value has a property of that name. *)
Definition get_priority (todo : JSValue) : option (option JSValue) :=
  match todo with
  | JNull => None
  | JObj props => Some (obj_get (js "priority") props)
  | _ => Some None
  end.

(** [todo.priority || "medium"]. *)
Definition priority_or_medium (p : option JSValue) : JSValue :=
  match p with
  | Some v => if ToBoolean v then v else JStr (js "medium")
  | None => JStr (js "medium")
  end.

(** The arrow function of the load effect,
    [{ ...todo, priority: todo.priority || "medium" }];
    [None] when it throws. *)
Definition withPriority (todo : JSValue) : option JSValue :=
  match get_priority todo with
  | Some p =>
    Some (JObj (obj_set (js "priority") (priority_or_medium p) (spread todo)))
  | None => None
  end.

(** [parsed.map(f)]: a [TypeError] ([None]) when [parsed] is not an
    array, since no other JSON value has a callable [map], or when [f]
    throws on an element. *)
Definition Array_map (f : JSValue -> option JSValue) (parsed : JSValue)
    : option (list JSValue) :=
  match parsed with
  | JArr elems => mapM f elems
  | _ => None
  end.

Definition setTodos (v : list JSValue) (w : World) : World :=
  mkWorld v (isHydrated w) (microtaskQueued w) (localStorage w) (writes w).
Definition setIsHydrated (v : bool) (w : World) : World :=
  mkWorld (todos w) v (microtaskQueued w) (localStorage w) (writes w).
Definition setItem (k v : jsstring) (w : World) : World :=
  mkWorld (todos w) (isHydrated w) (microtaskQueued w)
    (<[k := v]> (localStorage w)) ((k, v) :: writes w).
Definition dequeue (w : World) : World :=
  mkWorld (todos w) (isHydrated w) false (localStorage w) (writes w).

(** The body of the queued microtask: the load. [None] when the stored
    text is outside the model of [JSON_parse]. *)
Definition load (w : World) : option World :=
  let saved := localStorage w !! js "todos" in
  match saved with
  | Some (c :: r) =>
    match JSON_parse (c :: r) with
    | Parsed parsed =>
      match Array_map withPriority parsed with
      | Some todosWithPriority =>
        Some (setIsHydrated true (setTodos todosWithPriority w))
      | None => Some (setIsHydrated true (setTodos [] w))
      end
    | SyntaxError => Some (setIsHydrated true (setTodos [] w))
    | OutsideModel => None
    end
  | Some [] | None => Some (setIsHydrated true w)
  end.

(** The save effect, run after a render in which [todos] or
    [isHydrated] changed. *)
Definition save (w : World) : World :=
  if isHydrated w
  then setItem (js "todos") (JSON_stringify (JArr (todos w))) w
  else w.

(** The first render over the store as it is found: the load is queued,
    the save effect runs. *)
Definition mount (store : gmap (list N) (list N)) : World :=
  save (mkWorld [] false true store []).

Inductive Event : Type :=
| RunMicrotask
| SetTodos (v : list JSValue).

Definition step (e : Event) (w : World) : option World :=
  match e with
  | RunMicrotask =>
    if microtaskQueued w then
      save <$> load (dequeue w)
    else Some w
  | SetTodos v => Some (save (setTodos v w))
  end.

Fixpoint run (es : list Event) (w : World) : option World :=
  match es with
  | [] => Some w
  | e :: es' =>
    match step e w with
    | Some w' => run es' w'
    | None => None
    end
  end.

(** A record of the shape that the component itself stores. *)
Definition isPriority (v : JSValue) : bool :=
  match v with
  | JStr p =>
    bool_decide (p = js "high") || bool_decide (p = js "medium")
    || bool_decide (p = js "low")
  | _ => false
  end.

Definition item_like (v : JSValue) : bool :=
  match v with
  | JObj props =>
    match obj_get (js "id") props, obj_get (js "text") props,
          obj_get (js "completed") props with
    | Some (JNum _), Some (JStr _), Some (JBool _) =>
      match obj_get (js "priority") props with
      | Some p => isPriority p
      | None => true
      end
    | _, _, _ => false
    end
  | _ => false
  end.

End Persistence.

(** * Notions of the specification

    What the statements below speak of, besides the program. *)

(** The ids present in the collection. *)
Definition ids (s : State) : gset Z := list_to_set (map id (todos s)).

(** The selection refers to present items only. *)
Definition selection_valid (s : State) : Prop := selectedIds s ⊆ ids s.

(** [needle] occurs in [s]. *)
Definition contains (needle s : jsstring) : Prop :=
  exists before after, s = before ++ needle ++ after.

(** Every [Select] command of the run names an item that is present
    when the command is issued, as the rendered check boxes do. *)
Fixpoint selects_present `{Runtime} (cs : list Command) (s : State) : Prop :=
  match cs with
  | [] => True
  | c :: cs' =>
    (forall i, c = Select i -> i ∈ ids s) /\ selects_present cs' (fst (step c s))
  end.

(** Equality of texts under case-insensitive comparison, as [addTodo]
    compares them. *)
Definition ci_equal `{Runtime} (a b : jsstring) : Prop :=
  toLowerCase a = toLowerCase b.

(** No two items of the collection have case-insensitively equal text. *)
Definition no_ci_duplicates `{Runtime} (l : list Todo) : Prop :=
  NoDup (map (fun t => toLowerCase (text t)) l).

(** A sequence of [add] calls, each with its text, its priority and the
    reading of the clock. *)
Definition adds `{Runtime} (calls : list (jsstring * Priority * Z)) (s : State)
    : State :=
  fold_left (fun s c => add (fst (fst c)) (snd (fst c)) (snd c) s) calls s.

(** The readings of the clock that the [Add] commands of a run take. *)
Definition clockReadings (cs : list Command) : list Z :=
  flat_map (fun c => match c with Add now => [now] | _ => [] end) cs.

(** The items that an export covers. *)
Definition exportScope (onlySelected : bool) (s : State) : list Todo :=
  if onlySelected
  then List.filter (fun todo => bool_decide (id todo ∈ selectedIds s)) (todos s)
  else todos s.

(** The effect hands a file to the browser. *)
Definition isDownload (e : Effect) : bool :=
  match e with Download _ _ _ => true | Alert _ => false end.

(** The item of the example, with text [Say "hi"]. *)
Definition sayHi : Todo :=
  mkTodo 1 (js "Say " ++ QUOTE :: js "hi" ++ [QUOTE]) false high.

(** The csv text as the specification words it: after the byte-order mark
    and the header, one row per item that holds the id, the quoted text,
    the boolean, the completion label and the priority label, separated by
    commas. *)
Definition csv_as_specified (items : list Todo) : jsstring :=
  BOM :: js "ID,Text,Completed,CompletedText,Priority"
  ++ flat_map
       (fun t =>
          LF :: Number_toString (id t) ++ js ","
          ++ QUOTE :: replaceAll QUOTE [QUOTE; QUOTE] (text t) ++ QUOTE :: js ","
          ++ Boolean_toString (completed t) ++ js ","
          ++ (if completed t then js "已完成" else js "未完成") ++ js ","
          ++ priorityLabels (priority t))
       items.

(** The stored text under the key [todos], if there is one, is within the
    model of [JSON_parse]. *)
Definition store_modelled (store : gmap (list N) (list N)) : Prop :=
  forall sv, store !! js "todos" = Some sv -> JSON_parse sv <> OutsideModel.

(** What holds of every world that the component reaches from [store]:
    before the load has run nothing was written; after it, the key [todos]
    holds the serialization of the current items, written last. *)
Definition gated (store : gmap (list N) (list N)) (w : Persistence.World)
    : Prop :=
  Persistence.microtaskQueued w = negb (Persistence.isHydrated w)
  /\ if Persistence.isHydrated w then
       Persistence.localStorage w =
         <[js "todos" := JSON_stringify (JArr (Persistence.todos w))]> store
       /\ head (Persistence.writes w) =
            Some (js "todos", JSON_stringify (JArr (Persistence.todos w)))
       /\ Forall (fun kv => fst kv = js "todos") (Persistence.writes w)
     else Persistence.localStorage w = store /\ Persistence.writes w = [].

(** The item that the load makes of an element of the stored array. *)
Definition loadedItem (v : JSValue) : JSValue :=
  default JNull (Persistence.withPriority v).

(** The priority of an element as the load reads it. *)
Definition storedPriority (v : JSValue) : option JSValue :=
  match v with
  | JObj props => obj_get (js "priority") props
  | _ => None
  end.

(** A JSON text for the examples, written with an apostrophe wherever the
    text has a double quote. *)
Definition json_text (s : string) : jsstring :=
  map (fun c => if (c =? 0x27)%N then QUOTE else c) (js s).

Local Open Scope N_scope.

(** The text after a number does not continue it. *)
Definition ends_number (rest : jsstring) : Prop :=
  match rest with
  | [] => True
  | c :: _ => isDigit c = false /\ c <> 0x2E /\ c <> 0x65 /\ c <> 0x45
  end.

(** Every code unit of the string is one: below 2^16. *)
Definition wf_string (s : jsstring) : Prop := Forall (fun c => c < 0x10000) s.

(** The values that the model of [JSON_parse] reads back as they are:
    numbers are safe integers, strings hold code units, the keys of an
    object are distinct and none is an array index. *)
Inductive wf_value : JSValue -> Prop :=
| wf_JNull : wf_value JNull
| wf_JBool b : wf_value (JBool b)
| wf_JNum n : (Z.abs n <= Z.of_N MAX_SAFE_INTEGER)%Z -> wf_value (JNum n)
| wf_JStr s : wf_string s -> wf_value (JStr s)
| wf_JArr elems : Forall wf_value elems -> wf_value (JArr elems)
| wf_JObj props :
    NoDup (map fst props) ->
    Forall (fun kv => array_index (fst kv) = None /\ wf_string (fst kv)
                      /\ wf_value (snd kv)) props ->
    wf_value (JObj props).

(** Indentation is made of JSON white space. *)
Definition blank (s : jsstring) : Prop := forallb isJSONWhiteSpace s = true.

(** The white space that [serialize] puts before an element and before
    the closing bracket. *)
Definition lead (gap indent : jsstring) : jsstring :=
  if isEmpty gap then [] else LF :: indent ++ gap.
Definition trail (gap indent : jsstring) : jsstring :=
  if isEmpty gap then [] else LF :: indent.
Definition colon_space (gap : jsstring) : jsstring :=
  if isEmpty gap then [] else js " ".

(** A member of an object as [serialize] writes it. *)
Definition member (gap indent : jsstring) (kv : jsstring * JSValue) : jsstring :=
  QuoteJSONString (fst kv) ++ js ":" ++ colon_space gap
  ++ serialize gap indent (snd kv).

(** The first character of a serialized value starts a value. *)
Definition starts_value (c : N) : Prop :=
  isJSONWhiteSpace c = false /\ c <> 0x5D /\ c <> 0x7D.

(** A member of an object as [serialize] writes it, for the
    serialization [ser] of its value and the text [colon] after the colon. *)
Definition ser_member (ser : JSValue -> jsstring) (colon : jsstring)
    (kv : jsstring * JSValue) : jsstring :=
  QuoteJSONString (fst kv) ++ js ":" ++ colon ++ ser (snd kv).

Local Open Scope Z_scope.

(** The value under the key [todos] after the component was mounted over
    a store that holds [sv] there and its load has run, nothing else
    having happened. *)
Definition load_then_save (sv : jsstring) : option jsstring :=
  match Persistence.run [Persistence.RunMicrotask]
          (Persistence.mount {[ js "todos" := sv ]}) with
  | Some w => Persistence.localStorage w !! js "todos"
  | None => None
  end.

(** An item whose id is a safe integer and whose text holds code units;
    every item that [addTodo] creates is one. *)
Definition wf_todo (t : Todo) : Prop :=
  Z.abs (id t) <= Z.of_N MAX_SAFE_INTEGER /\ wf_string (text t).

(** The record of an item as it was saved before items had a priority. *)
Definition legacy_toJS (t : Todo) : JSValue :=
  JObj [(js "id", JNum (id t)); (js "text", JStr (text t));
        (js "completed", JBool (completed t))].

(** The item with its priority set to [medium]. *)
Definition with_medium (t : Todo) : Todo :=
  mkTodo (id t) (text t) (completed t) medium.

(** The object that the json export serializes. *)
Definition exportObject (now : Date) (items : list Todo) : JSValue :=
  JObj [(js "exportTime", JStr (toISOString now));
        (js "total", JNum (Z.of_nat (length items)));
        (js "completed", JNum (count completed items));
        (js "todos", JArr (map Todo_toJS items))].

(** [s] is a run of exactly [n] decimal digits. *)
Definition digitsb (n : nat) (s : jsstring) : bool :=
  (length s =? n)%nat && forallb isDigit s.

(** The shape of an ISO-8601 instant in UTC with a four-digit year:
    [YYYY-MM-DDTHH:mm:ss.sssZ]. *)
Definition iso8601_utc (s : jsstring) : Prop :=
  exists Y M D h m sec ms : jsstring,
    s = Y ++ js "-" ++ M ++ js "-" ++ D ++ js "T" ++ h ++ js ":" ++ m
        ++ js ":" ++ sec ++ js "." ++ ms ++ js "Z"
    /\ digitsb 4 Y = true /\ digitsb 2 M = true /\ digitsb 2 D = true
    /\ digitsb 2 h = true /\ digitsb 2 m = true /\ digitsb 2 sec = true
    /\ digitsb 3 ms = true.

(** A check of every integer of a range, by halving the range. *)
Fixpoint check_range (P : Z -> bool) (lo : Z) (len : positive) : bool :=
  match len with
  | xH => P lo
  | xO p => check_range P lo p && check_range P (lo + Z.pos p) p
  | xI p =>
    P lo && check_range P (lo + 1) p && check_range P (lo + 1 + Z.pos p) p
  end.

(** Month and day of the month as functions of the day of the 400-year
    era, the only part of the day number they depend on. *)
Definition month_day_of_era_day (doe : Z) : Z * Z :=
  let yoe := (doe - doe / 1460 + doe / 36524 - doe / 146096) / 365 in
  let doy := doe - (365 * yoe + yoe / 4 - yoe / 100) in
  let mp := (5 * doy + 2) / 153 in
  (if mp <? 10 then mp + 3 else mp - 9, doy - (153 * mp + 2) / 5 + 1).

(** The month is one of 1 to 12 and the day one of 1 to 31. *)
Definition month_day_ok (doe : Z) : bool :=
  let md := month_day_of_era_day doe in
  (1 <=? fst md) && (fst md <=? 12) && (1 <=? snd md) && (snd md <=? 31).

(** The item of the example. *)
Definition buyMilk : Todo := mkTodo 1 (js "Buy milk") false high.

(** The effects of a run of commands, in order. *)
Fixpoint effects `{Runtime} (cs : list Command) (s : State) : list Effect :=
  match cs with
  | [] => []
  | c :: cs' => snd (step c s) ++ effects cs' (fst (step c s))
  end.

(** Every command of the run is issued by a control that is rendered when
    the command is issued. *)
Fixpoint rendered_run `{Runtime} (cs : list Command) (s : State) : Prop :=
  match cs with
  | [] => True
  | c :: cs' => rendered c s = true /\ rendered_run cs' (fst (step c s))
  end.

(** The text has no white space at either end. *)
Definition trimmed (t : jsstring) : Prop := trim t = t.

(** The effect is an alert. *)
Definition isAlert (e : Effect) : bool :=
  match e with Alert _ => true | Download _ _ _ => false end.



(** The number that a string of decimal digits spells. *)
Definition decimalValue (s : jsstring) : Z :=
  fold_left (fun acc c => 10 * acc + (Z.of_N c - 0x30)) s 0.

(** Reading a quoted field as RFC 4180 has it, from the code unit after
    the opening quote: two quotes in a row stand for one quote of the
    field, a single quote closes it. The result is the field and what
    follows its closing quote. *)
Fixpoint readQuoted (s : jsstring) : option (jsstring * jsstring) :=
  match s with
  | [] => None
  | c :: r =>
    if (c =? QUOTE)%N then
      match r with
      | c' :: r' =>
        if (c' =? QUOTE)%N
        then (fun fr => (QUOTE :: fst fr, snd fr)) <$> readQuoted r'
        else Some ([], r)
      | [] => Some ([], [])
      end
    else (fun fr => (c :: fst fr, snd fr)) <$> readQuoted r
  end.

(** The next session: the component is mounted over the store that the
    last one left, and its queued load runs. *)
Definition nextSession (store : gmap (list N) (list N))
    : option Persistence.World :=
  Persistence.run [Persistence.RunMicrotask] (Persistence.mount store).

(** The load cannot make items of the stored text: the text does not
    parse, or it parses as something that is no array, or as an array with
    a [null] in it. *)
Definition unreadable (sv : jsstring) : Prop :=
  JSON_parse sv = SyntaxError
  \/ exists v, JSON_parse sv = Parsed v
       /\ ((forall elems, v <> JArr elems)
           \/ exists elems, v = JArr elems /\ In JNull elems).

(** * Properties *)

(** ** Selection *)

Lemma size_ids (s : State) :
  NoDup (map id (todos s)) -> size (ids s) = length (todos s).
Proof.
  intros Hnd. unfold ids. rewrite size_list_to_set by exact Hnd.
  apply length_map.
Qed.

Lemma toggleSelectAll_todos (s : State) : todos (toggleSelectAll s) = todos s.
Proof. unfold toggleSelectAll. by destruct (_ =? _)%nat. Qed.

Lemma toggleSelectAll_twice_selected (s : State) :
  NoDup (map id (todos s)) ->
  selectedIds (toggleSelectAll (toggleSelectAll s)) =
    if (size (selectedIds s) =? length (todos s))%nat then ids s else ∅.
Proof.
  intros Hnd. pose proof (size_ids s Hnd) as Hsz.
  unfold toggleSelectAll at 2.
  destruct (size (selectedIds s) =? length (todos s))%nat eqn:E.
  - unfold toggleSelectAll; cbn.
    rewrite size_empty.
    destruct (0 =? length (todos s))%nat eqn:E0; cbn; [|done].
    apply Nat.eqb_eq in E0. unfold ids.
    destruct (todos s); [done | discriminate].
  - unfold toggleSelectAll; cbn. fold (ids s). rewrite Hsz, Nat.eqb_refl. done.
Qed.

(** C2, the claim as stated fails: with items 1 and 2 and the partial
    selection {1}, the item set is the same before and after, yet two
    calls of [toggleSelectAll] leave the selection empty, not {1}. *)
Lemma toggleSelectAll_twice_partial_counterexample :
  let s := mkState [mkTodo 1 (js "a") false medium; mkTodo 2 (js "b") false medium]
             [] medium {[ 1 ]} false in
  (selectedIds s ≠ ∅) /\ (selectedIds s ⊂ ids s)
  /\ todos (toggleSelectAll (toggleSelectAll s)) = todos s
  /\ (selectedIds (toggleSelectAll (toggleSelectAll s)) ≠ selectedIds s).
Proof.
  cbn zeta. split; [|split; [|split]].
  - cbn. set_solver.
  - unfold ids; cbn. set_solver.
  - reflexivity.
  - assert (selectedIds (toggleSelectAll (toggleSelectAll
      (mkState [mkTodo 1 (js "a") false medium; mkTodo 2 (js "b") false medium]
         [] medium {[ 1 ]} false))) = ∅) as -> by (vm_compute; reflexivity).
    cbn. set_solver.
Qed.

(** C2, amended: when the items have pairwise distinct ids, two calls of
    [toggleSelectAll] leave the items as they are and return the selection
    to its prior value exactly when that value is empty or the full set of
    item ids; from a partial selection they end with the empty selection. *)
Theorem toggleSelectAll_twice (s : State) :
  NoDup (map id (todos s)) ->
  todos (toggleSelectAll (toggleSelectAll s)) = todos s
  /\ (selectedIds (toggleSelectAll (toggleSelectAll s)) = selectedIds s
      <-> selectedIds s = ∅ \/ selectedIds s = ids s)
  /\ (selectedIds s ≠ ∅ -> selectedIds s ⊂ ids s ->
      selectedIds (toggleSelectAll (toggleSelectAll s)) = ∅).
Proof.
  intros Hnd. pose proof (size_ids s Hnd) as Hsz.
  rewrite !toggleSelectAll_todos, toggleSelectAll_twice_selected by exact Hnd.
  split; [reflexivity|].
  destruct (size (selectedIds s) =? length (todos s))%nat eqn:E.
  - apply Nat.eqb_eq in E. split.
    + split; [auto|]. intros [H0 | Hf]; [|auto].
      rewrite H0, size_empty in E. unfold ids.
      destruct (todos s); [by rewrite H0 | discriminate].
    + intros _ Hsub. apply subset_size in Hsub. lia.
  - apply Nat.eqb_neq in E. split.
    + split; [auto|]. intros [H0 | Hf]; [auto|].
      rewrite Hf in E. lia.
    + reflexivity.
Qed.

Lemma toggleSelectAll_twice_witness :
  let s := mkState [mkTodo 1 (js "a") false medium; mkTodo 2 (js "b") false medium]
             [] medium {[ 1; 2 ]} false in
  NoDup (map id (todos s))
  /\ todos (toggleSelectAll (toggleSelectAll s)) = todos s
  /\ (selectedIds (toggleSelectAll (toggleSelectAll s)) = selectedIds s
      <-> selectedIds s = ∅ \/ selectedIds s = ids s)
  /\ (selectedIds s ≠ ∅ -> selectedIds s ⊂ ids s ->
      selectedIds (toggleSelectAll (toggleSelectAll s)) = ∅).
Proof.
  cbn zeta.
  assert (NoDup (map id [mkTodo 1 (js "a") false medium; mkTodo 2 (js "b") false medium]))
    as Hnd by (apply (bool_decide_unpack _); vm_compute; exact I).
  split; [exact Hnd|].
  apply (toggleSelectAll_twice
           (mkState [mkTodo 1 (js "a") false medium; mkTodo 2 (js "b") false medium]
              [] medium {[ 1; 2 ]} false)).
  exact Hnd.
Defined.

(** ** The selection invariant *)

Lemma ids_filter_subseteq (f : Todo -> bool) (s : State) (l : list Todo) :
  todos s = l -> list_to_set (map id (List.filter f l)) ⊆ ids s.
Proof.
  intros <-. unfold ids. intros x.
  rewrite !elem_of_list_to_set, !list_elem_of_In, !in_map_iff.
  intros (t & Ht & Hin). apply filter_In in Hin. exists t. tauto.
Qed.

Lemma toggleTodo_ids (i : Z) (s : State) : ids (toggleTodo i s) = ids s.
Proof.
  unfold ids, toggleTodo; cbn. f_equal. rewrite map_map.
  apply map_ext. intros t. by destruct (id t =? i).
Qed.

Lemma addTodo_ids_subseteq `{Runtime} (now : Z) (s : State) :
  ids s ⊆ ids (addTodo now s).
Proof.
  unfold addTodo, ids.
  destruct (negb (isEmpty (trim (inputValue s)))); [|done].
  destruct (negb (existsb _ _)); cbn; [|done].
  rewrite map_app, list_to_set_app_L. set_solver.
Qed.

Lemma addTodo_selectedIds `{Runtime} (now : Z) (s : State) :
  selectedIds (addTodo now s) = selectedIds s.
Proof.
  unfold addTodo.
  destruct (negb (isEmpty (trim (inputValue s)))); [|done].
  by destruct (negb (existsb _ _)).
Qed.

Lemma exportTodos_lists `{Runtime} f o n1 n2 (s : State) :
  todos (fst (exportTodos f o n1 n2 s)) = todos s
  /\ selectedIds (fst (exportTodos f o n1 n2 s)) = selectedIds s.
Proof. unfold exportTodos. by destruct (_ =? 0)%nat. Qed.

(** C3, the claim as stated fails: [toggleSelect] with an id that no item
    carries is not a no-op, it puts the id into the selection, and the
    selection is then no subset of the present ids. *)
Lemma toggleSelect_unknown_id_counterexample :
  (7 ∉ ids initialState)
  /\ selection_valid initialState
  /\ toggleSelect 7 initialState ≠ initialState
  /\ ~ selection_valid (toggleSelect 7 initialState).
Proof.
  assert (selectedIds (toggleSelect 7 initialState) = {[ 7 ]}) as Hsel
    by (vm_compute; reflexivity).
  repeat split.
  - unfold ids; cbn. set_solver.
  - unfold selection_valid; cbn. set_solver.
  - intros Heq. rewrite Heq in Hsel. cbn in Hsel. set_solver.
  - unfold selection_valid. rewrite Hsel. unfold ids; cbn. set_solver.
Qed.

Lemma step_selection_valid `{Runtime} (c : Command) (s : State) :
  selection_valid s ->
  (forall i, c = Select i -> i ∈ ids s) ->
  selection_valid (fst (step c s)).
Proof.
  unfold selection_valid. intros Hv Hsel.
  destruct c; cbn [step fst].
  - exact Hv.
  - exact Hv.
  - rewrite addTodo_selectedIds. pose proof (addTodo_ids_subseteq now s).
    set_solver.
  - rewrite toggleTodo_ids. exact Hv.
  - unfold deleteTodo; cbn. intros x Hx.
    apply elem_of_difference in Hx as [Hx Hne].
    apply Hv in Hx. unfold ids in *; cbn.
    rewrite elem_of_list_to_set, list_elem_of_In, in_map_iff in *.
    destruct Hx as (t & Ht & Hin). exists t. split; [done|].
    apply filter_In. split; [done|].
    apply negb_true_iff, Z.eqb_neq. set_solver.
  - specialize (Hsel i eq_refl). unfold toggleSelect; cbn.
    case_bool_decide; set_solver.
  - unfold toggleSelectAll.
    destruct (_ =? _)%nat; cbn; [set_solver | done].
  - unfold batchDelete; cbn. set_solver.
  - exact Hv.
  - destruct (exportTodos_lists format onlySelected now1 now2 s) as [Ht Hs].
    unfold ids. rewrite Ht, Hs. exact Hv.
Qed.

Lemma run_selection_valid `{Runtime} (cs : list Command) (s : State) :
  selection_valid s -> selects_present cs s -> selection_valid (run cs s).
Proof.
  revert s. induction cs as [|c cs IH]; intros s Hv Hp; [exact Hv|].
  destruct Hp as [Hc Hp]. cbn. apply IH; [|exact Hp].
  by apply step_selection_valid.
Qed.

(** C3, amended: every command preserves "the selection is a subset of
    the present ids", provided [toggleSelect] is called with the id of a
    present item (for an id that is neither present nor selected it adds
    that id to the selection); so the invariant holds after every run of
    such commands. [deleteTodo] removes the deleted id from the items and
    from the selection. *)
Theorem selection_valid_preserved `{Runtime} (c : Command) (s : State) :
  selection_valid s ->
  (forall i, c = Select i -> i ∈ ids s) ->
  selection_valid (fst (step c s))
  /\ (forall cs, selects_present cs s -> selection_valid (run cs s))
  /\ (forall i, c = Delete i ->
        (i ∉ selectedIds (fst (step c s))) /\ (i ∉ ids (fst (step c s))))
  /\ (forall i, i ∉ ids s -> i ∉ selectedIds s ->
        selectedIds (toggleSelect i s) = selectedIds s ∪ {[ i ]}).
Proof.
  intros Hv Hsel. split; [|split; [|split]].
  - by apply step_selection_valid.
  - intros cs. by apply run_selection_valid.
  - intros i ->. cbn. split; [set_solver|].
    unfold ids; cbn.
    rewrite elem_of_list_to_set, list_elem_of_In, in_map_iff.
    intros (t & Ht & Hin). apply filter_In in Hin as [_ Hne].
    apply negb_true_iff, Z.eqb_neq in Hne. done.
  - intros i _ Hni. unfold toggleSelect; cbn. by case_bool_decide.
Qed.

Lemma selection_valid_preserved_witness :
  let s := mkState [mkTodo 1 (js "a") false medium; mkTodo 2 (js "b") false medium]
             [] medium {[ 1 ]} false in
  selection_valid s
  /\ (forall i, Select 2 = Select i -> i ∈ ids s)
  /\ selection_valid (fst (step (H := sampleHost) (Select 2) s)).
Proof.
  cbn zeta.
  assert (selection_valid
            (mkState [mkTodo 1 (js "a") false medium; mkTodo 2 (js "b") false medium]
               [] medium {[ 1 ]} false)) as Hv.
  { unfold selection_valid, ids; cbn. set_solver. }
  assert (forall i, Select 2 = Select i ->
            i ∈ ids (mkState [mkTodo 1 (js "a") false medium;
                              mkTodo 2 (js "b") false medium]
                       [] medium {[ 1 ]} false)) as Hs.
  { intros i [= <-]. unfold ids; cbn. set_solver. }
  split; [exact Hv|]. split; [exact Hs|].
  exact (proj1 (selection_valid_preserved (H := sampleHost) (Select 2) _ Hv Hs)).
Defined.

(** ** Adding items *)

Lemma existsb_ci `{Runtime} (x : jsstring) (l : list Todo) :
  existsb (fun todo => bool_decide (toLowerCase (text todo) = toLowerCase x)) l
    = true
  <-> exists t, In t l /\ ci_equal (text t) x.
Proof.
  rewrite existsb_exists. split; intros (t & Hin & Ht); exists t; split;
    try done; unfold ci_equal in *.
  - by apply bool_decide_eq_true in Ht.
  - by apply bool_decide_eq_true.
Qed.

Lemma addTodo_cases `{Runtime} (now : Z) (s : State) :
  let trimmed := trim (inputValue s) in
  (trimmed = [] /\ addTodo now s = s)
  \/ (trimmed <> [] /\ (exists t, In t (todos s) /\ ci_equal (text t) trimmed)
      /\ addTodo now s = setSelectedPriority medium (setInputValue [] s))
  \/ (trimmed <> [] /\ (forall t, In t (todos s) -> ~ ci_equal (text t) trimmed)
      /\ addTodo now s =
           setSelectedPriority medium
             (setInputValue []
                (setTodos (todos s ++ [mkTodo now trimmed false (selectedPriority s)]) s))).
Proof.
  cbn zeta. unfold addTodo.
  destruct (trim (inputValue s)) as [|c r] eqn:Et; cbn [isEmpty negb].
  { left. done. }
  right.
  destruct (existsb _ (todos s)) eqn:Ex; cbn [negb].
  - left. split; [done|]. split; [|done]. by apply existsb_ci.
  - right. split; [done|]. split; [|done].
    intros t Hin Hci.
    assert (existsb (fun todo => bool_decide
              (toLowerCase (text todo) = toLowerCase (c :: r))) (todos s) = true)
      as Habs by (apply existsb_ci; eauto).
    congruence.
Qed.

Lemma add_no_ci_duplicates `{Runtime} text_ p now (s : State) :
  no_ci_duplicates (todos s) -> no_ci_duplicates (todos (add text_ p now s)).
Proof.
  unfold add, no_ci_duplicates. intros Hnd.
  destruct (addTodo_cases now (setSelectedPriority p (setInputValue text_ s)))
    as [[_ ->] | [(_ & _ & ->) | (_ & Hfresh & ->)]]; cbn in *; try done.
  rewrite map_app. cbn. apply NoDup_app. split; [done|]. split.
  - intros x Hx Hk. apply list_elem_of_singleton in Hk as ->.
    apply list_elem_of_In, in_map_iff in Hx as (t & Ht & Hin).
    by apply (Hfresh t Hin).
  - apply NoDup_singleton.
Qed.

Lemma adds_no_ci_duplicates `{Runtime} calls (s : State) :
  no_ci_duplicates (todos s) -> no_ci_duplicates (todos (adds calls s)).
Proof.
  revert s. induction calls as [|c calls IH]; intros s Hs; [exact Hs|].
  cbn. apply IH. by apply add_no_ci_duplicates.
Qed.

(** C6: [add] trims the text; it leaves the items and the selection as
    they are when the trimmed text is empty or equals the text of an item
    under case-insensitive comparison; otherwise it appends exactly one
    item with the trimmed text, not completed, of the given priority.
    Hence a sequence of [add] calls keeps the collection free of
    case-insensitive duplicates, and from the empty collection produces
    none. *)
Theorem add_spec `{Runtime} (text_ : jsstring) (p : Priority) (now : Z)
    (s : State) :
  let trimmed := trim text_ in
  let s' := add text_ p now s in
  ((trimmed = [] \/ exists t, In t (todos s) /\ ci_equal (text t) trimmed) ->
   todos s' = todos s /\ selectedIds s' = selectedIds s)
  /\ (trimmed <> [] ->
      (forall t, In t (todos s) -> ~ ci_equal (text t) trimmed) ->
      todos s' = todos s ++ [mkTodo now trimmed false p]
      /\ selectedIds s' = selectedIds s)
  /\ (forall calls, no_ci_duplicates (todos s) ->
        no_ci_duplicates (todos (adds calls s)))
  /\ (forall calls, no_ci_duplicates (todos (adds calls initialState))).
Proof.
  cbn zeta. split; [|split; [|split]].
  - unfold add. intros Hskip.
    destruct (addTodo_cases now (setSelectedPriority p (setInputValue text_ s)))
      as [[He ->] | [(Hne & Hex & ->) | (Hne & Hfresh & ->)]]; cbn in *;
      try done.
    destruct Hskip as [He | (t & Hin & Hci)]; [done|].
    by destruct (Hfresh t Hin).
  - unfold add. intros Hne Hfresh.
    destruct (addTodo_cases now (setSelectedPriority p (setInputValue text_ s)))
      as [[He _] | [(_ & Hex & _) | (_ & _ & ->)]]; cbn in *; try done.
    destruct Hex as (t & Hin & Hci). by destruct (Hfresh t Hin).
  - intros calls. apply adds_no_ci_duplicates.
  - intros calls. apply adds_no_ci_duplicates. apply NoDup_nil_2.
Qed.

Lemma add_spec_witness :
  let s := mkState [mkTodo 1 (js "Buy milk") false high] [] medium ∅ false in
  todos (add (H := sampleHost) (js "  BUY MILK ") low 2 s) = todos s
  /\ todos (add (H := sampleHost) (js " Walk dog") low 2 s) =
       todos s ++ [mkTodo 2 (js "Walk dog") false low].
Proof.
  cbn zeta. split.
  - apply (add_spec (H := sampleHost) (js "  BUY MILK ") low 2
             (mkState [mkTodo 1 (js "Buy milk") false high] [] medium ∅ false)).
    right. exists (mkTodo 1 (js "Buy milk") false high).
    split; [left; reflexivity | vm_compute; reflexivity].
  - apply (add_spec (H := sampleHost) (js " Walk dog") low 2
             (mkState [mkTodo 1 (js "Buy milk") false high] [] medium ∅ false)).
    + vm_compute. discriminate.
    + intros t [<- | []]. vm_compute. discriminate.
Defined.

(** ** Generated ids *)

Lemma StronglySorted_sublist {A} (R : relation A) (l1 l2 : list A) :
  sublist l1 l2 -> StronglySorted R l2 -> StronglySorted R l1.
Proof.
  induction 1 as [|x l1 l2 Hsub IH|x l1 l2 Hsub IH]; intros Hs.
  - constructor.
  - apply StronglySorted_inv in Hs as [Hs Hall]. constructor; [auto|].
    apply Forall_forall. intros y Hy.
    pose proof (proj1 (Forall_forall _ _) Hall) as Hall'.
    apply Hall'. by apply (elem_of_sublist l1 l2).
  - apply StronglySorted_inv in Hs as [Hs _]. auto.
Qed.

Lemma generatedIds_sublist `{Runtime} (cs : list Command) (s : State) :
  sublist (generatedIds cs s) (clockReadings cs).
Proof.
  revert s. induction cs as [|c cs IH]; intros s; [constructor|].
  cbn [generatedIds clockReadings flat_map]. apply sublist_app; [|apply IH].
  destruct c; try apply sublist_nil. cbn [step fst].
  destruct (addTodo_cases now s) as [[_ ->] | [(_ & _ & ->) | (_ & _ & ->)]];
    cbn [todos setTodos setInputValue setSelectedPriority].
  - rewrite drop_all. apply sublist_nil_l.
  - rewrite drop_all. apply sublist_nil_l.
  - rewrite drop_app_length. cbn. repeat constructor.
Qed.

(** C4, the claim as stated fails: the id of a new item is the reading of
    the wall clock, and two successful adds that read the same millisecond
    generate the same id (and a clock that was set back, a smaller one). *)
Lemma generated_ids_same_clock_counterexample :
  let cs := [TypeInput (js "a"); Add 5; TypeInput (js "b"); Add 5] in
  let cs' := [TypeInput (js "a"); Add 5; TypeInput (js "b"); Add 3] in
  length (todos (run (H := sampleHost) cs initialState)) = 2%nat
  /\ generatedIds (H := sampleHost) cs initialState = [5; 5]
  /\ ~ StronglySorted Z.lt (generatedIds (H := sampleHost) cs initialState)
  /\ generatedIds (H := sampleHost) cs' initialState = [5; 3].
Proof.
  cbn zeta.
  assert (generatedIds (H := sampleHost)
            [TypeInput (js "a"); Add 5; TypeInput (js "b"); Add 5] initialState
          = [5; 5]) as Hg by (vm_compute; reflexivity).
  split; [vm_compute; reflexivity|]. split; [exact Hg|].
  split; [|vm_compute; reflexivity].
  rewrite Hg. intros Hs. apply StronglySorted_inv in Hs as [_ Hall].
  apply Forall_inv in Hall. lia.
Qed.

(** C4, amended: the id that [addTodo] gives a new item is the reading of
    [Date.now()] at that call, so the ids generated in a run are, in order,
    readings of the clock at its [Add] commands; each is strictly greater
    than all ids generated before it whenever the clock readings of the
    run are strictly increasing. *)
Theorem generated_ids_increasing `{Runtime} (cs : list Command) (s : State) :
  sublist (generatedIds cs s) (clockReadings cs)
  /\ (StronglySorted Z.lt (clockReadings cs) ->
      StronglySorted Z.lt (generatedIds cs s)).
Proof.
  split; [apply generatedIds_sublist|].
  apply StronglySorted_sublist, generatedIds_sublist.
Qed.

Lemma generated_ids_increasing_witness :
  let cs := [TypeInput (js "a"); Add 5; TypeInput (js "A"); Add 6;
             TypeInput (js "b"); Add 7] in
  StronglySorted Z.lt (clockReadings cs)
  /\ StronglySorted Z.lt (generatedIds (H := sampleHost) cs initialState)
  /\ generatedIds (H := sampleHost) cs initialState = [5; 7].
Proof.
  cbn zeta.
  assert (StronglySorted Z.lt
            (clockReadings [TypeInput (js "a"); Add 5; TypeInput (js "A"); Add 6;
                            TypeInput (js "b"); Add 7])) as Hc.
  { cbn. repeat constructor; lia. }
  split; [exact Hc|]. split; [|vm_compute; reflexivity].
  exact (proj2 (generated_ids_increasing (H := sampleHost) _ initialState) Hc).
Defined.

(** ** Export *)

(** C7: for every format and scope, when the items to export are none the
    handler alerts the user and returns: the state is as before and the
    only effect is the alert, no file is handed over, whatever the format
    and the clock. After [batchDelete] the selection is empty, so an export
    of the selected items ends with the "nothing selected" alert. *)
Theorem export_empty_aborts `{Runtime} (format : ExportFormat)
    (onlySelected : bool) (now1 now2 : Date) (s : State) :
  (exportScope onlySelected s = [] ->
   exportTodos format onlySelected now1 now2 s =
     (s, [Alert (if onlySelected then js "没有选中的待办事项"
                 else js "没有待办事项可导出")])
   /\ existsb isDownload (snd (exportTodos format onlySelected now1 now2 s))
      = false)
  /\ exportTodos format true now1 now2 (batchDelete s) =
       (batchDelete s, [Alert (js "没有选中的待办事项")]).
Proof.
  split.
  - unfold exportScope, exportTodos. intros ->. done.
  - unfold exportTodos. cbn [batchDelete selectedIds setSelectedIds].
    replace (List.filter _ _) with (@nil Todo); [done|].
    symmetry. induction (todos _) as [|t l IH]; [done|]. cbn.
    rewrite bool_decide_eq_false_2 by set_solver. exact IH.
Qed.

Lemma export_empty_aborts_witness :
  let s := mkState [mkTodo 1 (js "a") false medium] [] medium ∅ true in
  exportScope true s = []
  /\ exportTodos (H := sampleHost) csv true (mkDate 0 0) (mkDate 0 0) s =
       (s, [Alert (js "没有选中的待办事项")]).
Proof.
  cbn zeta. split; [reflexivity|].
  apply (export_empty_aborts (H := sampleHost) csv true (mkDate 0 0) (mkDate 0 0)
           (mkState [mkTodo 1 (js "a") false medium] [] medium ∅ true)).
  reflexivity.
Defined.

Lemma join_cons_map {A} (sep h : jsstring) (f : A -> jsstring) (l : list A) :
  join sep (h :: map f l) = h ++ flat_map (fun x => sep ++ f x) l.
Proof.
  revert h. induction l as [|x l IH]; intros h.
  - cbn. by rewrite app_nil_r.
  - cbn [map flat_map]. change (join sep (h :: f x :: map f l))
      with (h ++ sep ++ join sep (f x :: map f l)).
    rewrite IH. by rewrite <- !app_assoc.
Qed.

(** C1, the claim as stated fails: the first field of a row is not the id
    alone, the code writes a tab character in front of it. *)
Lemma csv_row_leading_tab_counterexample :
  generateExportContent (H := sampleHost) csv (mkDate 0 0) [sayHi]
    <> csv_as_specified [sayHi]
  /\ generateExportContent (H := sampleHost) csv (mkDate 0 0) [sayHi] =
       BOM :: js "ID,Text,Completed,CompletedText,Priority"
       ++ LF :: TAB :: js "1," ++ QUOTE :: js "Say " ++ QUOTE :: QUOTE :: js "hi"
       ++ QUOTE :: QUOTE :: QUOTE :: js ",false,未完成,高".
Proof.
  split; [vm_compute; discriminate | vm_compute; reflexivity].
Qed.

(** C1, amended: the csv export is the byte-order mark, the header row
    [ID,Text,Completed,CompletedText,Priority] and then, each after a
    newline, one row per item: a tab character, the id, the text between
    double quotes with every embedded quote doubled, the completed boolean,
    the two-state completion label and the priority label, separated by
    commas. The row of the item with text [Say "hi"] contains that text
    between quotes with each of its two quotes doubled. *)
Theorem csv_export_layout `{Runtime} (now : Date) (items : list Todo) :
  generateExportContent csv now items =
    BOM :: js "ID,Text,Completed,CompletedText,Priority"
    ++ flat_map
         (fun t =>
            LF :: TAB :: Number_toString (id t) ++ js ","
            ++ QUOTE :: replaceAll QUOTE [QUOTE; QUOTE] (text t) ++ QUOTE :: js ","
            ++ Boolean_toString (completed t) ++ js ","
            ++ (if completed t then js "已完成" else js "未完成") ++ js ","
            ++ priorityLabels (priority t))
         items
  /\ (forall a b : jsstring,
        replaceAll QUOTE [QUOTE; QUOTE] (a ++ QUOTE :: b) =
          replaceAll QUOTE [QUOTE; QUOTE] a ++ QUOTE :: QUOTE
          :: replaceAll QUOTE [QUOTE; QUOTE] b)
  /\ (forall a : jsstring, ~ In QUOTE a -> replaceAll QUOTE [QUOTE; QUOTE] a = a)
  /\ contains
       (QUOTE :: js "Say " ++ QUOTE :: QUOTE :: js "hi" ++ [QUOTE; QUOTE; QUOTE])
       (csvRow sayHi)
  /\ contains (csvRow sayHi) (generateExportContent csv now [sayHi]).
Proof.
  split; [|split; [|split; [|split]]].
  - unfold generateExportContent. rewrite (join_cons_map [LF] csvHeader csvRow).
    reflexivity.
  - intros a b. unfold replaceAll. rewrite flat_map_app. reflexivity.
  - intros a Ha. unfold replaceAll. induction a as [|c a IH]; [done|].
    cbn [flat_map]. destruct (N.eqb_spec c QUOTE) as [->|Hc].
    + destruct Ha. by left.
    + cbn. f_equal. apply IH. intros Hin. apply Ha. by right.
  - exists (TAB :: js "1,"), (js ",false,未完成,高"). vm_compute. reflexivity.
  - exists (BOM :: csvHeader ++ [LF]), []. vm_compute. reflexivity.
Qed.

Lemma csv_export_layout_witness :
  ~ In QUOTE (js "Buy milk")
  /\ replaceAll QUOTE [QUOTE; QUOTE] (js "Buy milk") = js "Buy milk"
  /\ generateExportContent (H := sampleHost) csv (mkDate 0 0)
       [mkTodo 1 (js "Buy milk") true low] =
       BOM :: js "ID,Text,Completed,CompletedText,Priority"
       ++ LF :: TAB :: js "1," ++ QUOTE :: js "Buy milk" ++ QUOTE
       :: js ",true,已完成,低".
Proof.
  assert (~ In QUOTE (js "Buy milk")) as Hq.
  { vm_compute. intuition discriminate. }
  pose proof (csv_export_layout (H := sampleHost) (mkDate 0 0)
                [mkTodo 1 (js "Buy milk") true low]) as (Hlayout & _ & Hid & _).
  split; [exact Hq|]. split; [exact (Hid _ Hq)|].
  rewrite Hlayout. vm_compute. reflexivity.
Defined.

(** ** The persistence effects *)

Lemma gated_mount store : gated store (Persistence.mount store).
Proof. by cbv [gated Persistence.mount Persistence.save]. Qed.

Lemma load_hydrates w w' :
  Persistence.load w = Some w' ->
  Persistence.isHydrated w' = true
  /\ Persistence.localStorage w' = Persistence.localStorage w
  /\ Persistence.writes w' = Persistence.writes w
  /\ Persistence.microtaskQueued w' = Persistence.microtaskQueued w.
Proof.
  unfold Persistence.load.
  destruct (Persistence.localStorage w !! js "todos") as [[|c r]|];
    [by intros [= <-] | | by intros [= <-]].
  destruct (JSON_parse (c :: r)) as [parsed| |]; [|by intros [= <-]|done].
  by destruct (Persistence.Array_map _ parsed); intros [= <-].
Qed.

Lemma load_defined store w :
  store_modelled store -> Persistence.localStorage w = store ->
  is_Some (Persistence.load w).
Proof.
  intros Hm Hls. unfold Persistence.load. rewrite Hls.
  destruct (store !! js "todos") as [[|c r]|] eqn:Es; [by eexists | | by eexists].
  specialize (Hm _ Es).
  destruct (JSON_parse (c :: r)) as [parsed| |]; [|by eexists|done].
  destruct (Persistence.Array_map _ parsed); by eexists.
Qed.

Lemma gated_save store w :
  Persistence.isHydrated w = true ->
  (Persistence.localStorage w = store
   \/ exists old, Persistence.localStorage w = <[js "todos" := old]> store) ->
  Forall (fun kv => fst kv = js "todos") (Persistence.writes w) ->
  Persistence.microtaskQueued w = false ->
  gated store (Persistence.save w).
Proof.
  intros Hh Hls Hw Hq. unfold gated, Persistence.save. rewrite Hh. cbn.
  rewrite Hh. split; [done|]. split; [|split; [done|by constructor]].
  destruct Hls as [-> | [old ->]]; [done|]. apply insert_insert_eq.
Qed.

Lemma gated_step store e w w' :
  gated store w -> Persistence.step e w = Some w' ->
  gated store w'
  /\ (Persistence.isHydrated w' = true
      <-> Persistence.isHydrated w = true \/ e = Persistence.RunMicrotask).
Proof.
  intros [Hq Hg] Hstep. destruct e as [|v]; cbn in Hstep.
  - destruct (Persistence.microtaskQueued w) eqn:Eq.
    + destruct (Persistence.isHydrated w) eqn:Eh; [done|]. destruct Hg as [Hls Hw].
      destruct (Persistence.load (Persistence.dequeue w)) as [w1|] eqn:El; [|done].
      injection Hstep as <-.
      apply load_hydrates in El as (Hh1 & Hls1 & Hw1 & Hq1). cbn in *.
      split.
      * apply gated_save; [done | left; congruence | | done].
        rewrite Hw1, Hw. constructor.
      * unfold Persistence.save. rewrite Hh1. cbn. rewrite Hh1. tauto.
    + injection Hstep as <-. destruct (Persistence.isHydrated w) eqn:Eh; [|done].
      split; [|tauto]. unfold gated. by rewrite Eh, Eq.
  - injection Hstep as <-.
    destruct (Persistence.isHydrated w) eqn:Eh.
    + destruct Hg as (Hls & _ & Hw). split.
      * apply gated_save; cbn; [done | right; eauto | done | by rewrite Hq].
      * unfold Persistence.save. cbn. rewrite Eh. cbn. rewrite Eh. tauto.
    + split.
      * unfold gated, Persistence.save. cbn. rewrite Eh. cbn. by rewrite Eh.
      * unfold Persistence.save. cbn. rewrite Eh. cbn. rewrite Eh.
        split; [done | by intros [|]].
Qed.

Lemma gated_run store es w w' :
  gated store w -> Persistence.run es w = Some w' ->
  gated store w'
  /\ (Persistence.isHydrated w' = true
      <-> Persistence.isHydrated w = true \/ In Persistence.RunMicrotask es).
Proof.
  revert w. induction es as [|e es IH]; intros w Hg Hrun; cbn in Hrun.
  - injection Hrun as <-. split; [done|]. cbn. tauto.
  - destruct (Persistence.step e w) as [w1|] eqn:Es; [|done].
    destruct (gated_step _ _ _ _ Hg Es) as [Hg1 Hh1].
    destruct (IH _ Hg1 Hrun) as [Hg' Hh']. split; [done|].
    rewrite Hh', Hh1. cbn. intuition congruence.
Qed.

Lemma run_defined store es w :
  store_modelled store -> gated store w -> is_Some (Persistence.run es w).
Proof.
  intros Hm. revert w. induction es as [|e es IH]; intros w Hg; [by eexists|].
  cbn. assert (is_Some (Persistence.step e w)) as [w1 Hs].
  { destruct e as [|v]; cbn; [|by eexists].
    destruct (Persistence.microtaskQueued w) eqn:Eq; [|by eexists].
    destruct Hg as [Hq Hg]. rewrite Eq in Hq.
    destruct (Persistence.isHydrated w); [done|]. destruct Hg as [Hls _].
    destruct (load_defined store (Persistence.dequeue w) Hm Hls) as [w1 ->].
    by eexists. }
  rewrite Hs. apply IH. by apply (gated_step _ _ _ _ Hg Hs).
Qed.

(** C8: in every run of the mounted component (the queued load and any
    changes of the items, in any order), as long as the load has not run
    no call of [localStorage.setItem] was made and the store is the one
    found at mount; once it has run, every change of the items is followed
    by a write of the whole serialized item list to the key [todos], which
    replaces the previous value, and no other key is ever written. *)
Theorem writes_gated_by_hydration (store : gmap (list N) (list N))
    (es : list Persistence.Event) :
  store_modelled store ->
  exists w,
    Persistence.run es (Persistence.mount store) = Some w
    /\ (Persistence.isHydrated w = true <-> In Persistence.RunMicrotask es)
    /\ (~ In Persistence.RunMicrotask es ->
        Persistence.writes w = [] /\ Persistence.localStorage w = store)
    /\ (In Persistence.RunMicrotask es ->
        Persistence.localStorage w =
          <[js "todos" := JSON_stringify (JArr (Persistence.todos w))]> store
        /\ Forall (fun kv => fst kv = js "todos") (Persistence.writes w)
        /\ forall v, exists w',
             Persistence.step (Persistence.SetTodos v) w = Some w'
             /\ Persistence.todos w' = v
             /\ Persistence.writes w' =
                  (js "todos", JSON_stringify (JArr v)) :: Persistence.writes w
             /\ Persistence.localStorage w' =
                  <[js "todos" := JSON_stringify (JArr v)]> store).
Proof.
  intros Hm.
  destruct (run_defined store es _ Hm (gated_mount store)) as [w Hrun].
  exists w. split; [exact Hrun|].
  destruct (gated_run _ _ _ _ (gated_mount store) Hrun) as [[Hq Hg] Hh].
  cbn in Hh. assert (Persistence.isHydrated w = true
                     <-> In Persistence.RunMicrotask es) as Hh'
    by (rewrite Hh; intuition congruence).
  split; [exact Hh'|]. split.
  - intros Hnot. destruct (Persistence.isHydrated w) eqn:Eh.
    + destruct Hnot. by apply Hh'.
    + tauto.
  - intros Hin. apply Hh' in Hin. rewrite Hin in Hg.
    destruct Hg as (Hls & _ & Hw). split; [done|]. split; [done|].
    intros v. eexists. split; [reflexivity|].
    unfold Persistence.save. cbn. rewrite Hin. cbn.
    split; [done|]. split; [done|]. rewrite Hls. apply insert_insert_eq.
Qed.

Lemma writes_gated_by_hydration_witness :
  let store : gmap (list N) (list N) := {[ js "todos" := js "[1]" ]} in
  let es := [Persistence.SetTodos [JNull]; Persistence.RunMicrotask;
             Persistence.SetTodos []] in
  store_modelled store
  /\ exists w, Persistence.run es (Persistence.mount store) = Some w
               /\ (Persistence.isHydrated w = true
                   <-> In Persistence.RunMicrotask es).
Proof.
  cbn zeta.
  assert (store_modelled ({[ js "todos" := js "[1]" ]})) as Hm.
  { intros sv Hsv. apply lookup_singleton_Some in Hsv as [_ <-].
    vm_compute. discriminate. }
  split; [exact Hm|].
  destruct (writes_gated_by_hydration ({[ js "todos" := js "[1]" ]})
              [Persistence.SetTodos [JNull]; Persistence.RunMicrotask;
               Persistence.SetTodos []] Hm) as (w & Hrun & Hh & _).
  exists w. split; [exact Hrun | exact Hh].
Defined.

(** ** Loading *)

Lemma obj_get_replace_value k v props :
  has_key k props = true -> obj_get k (replace_value k v props) = Some v.
Proof.
  induction props as [|[k' v'] r IH]; cbn; [done|].
  case_bool_decide as Hk; cbn.
  - intros _. by rewrite bool_decide_eq_true_2.
  - intros Hr. rewrite bool_decide_eq_false_2 by done. auto.
Qed.

Lemma obj_get_insert_index i k v props :
  has_key k props = false -> obj_get k (insert_index i k v props) = Some v.
Proof.
  induction props as [|[k' v'] r IH]; cbn.
  - intros _. by rewrite bool_decide_eq_true_2.
  - case_bool_decide as Hk; cbn; [done|]. intros Hr.
    destruct (array_index k') as [j|]; [destruct (j <? i)%N|]; cbn;
      rewrite ?bool_decide_eq_true_2, ?(bool_decide_eq_false_2 _ Hk) by done;
      auto.
Qed.

Lemma obj_get_app_new k v props :
  has_key k props = false -> obj_get k (props ++ [(k, v)]) = Some v.
Proof.
  induction props as [|[k' v'] r IH]; cbn.
  - intros _. by rewrite bool_decide_eq_true_2.
  - case_bool_decide as Hk; cbn; [done|]. auto.
Qed.

(** A property that was set is read back. *)
Lemma obj_get_obj_set k v props : obj_get k (obj_set k v props) = Some v.
Proof.
  unfold obj_set. destruct (has_key k props) eqn:Eh.
  - by apply obj_get_replace_value.
  - destruct (array_index k); [by apply obj_get_insert_index|].
    by apply obj_get_app_new.
Qed.

(** Setting a property leaves the others as they are. *)
Lemma obj_get_obj_set_ne k k' v props :
  k <> k' -> obj_get k (obj_set k' v props) = obj_get k props.
Proof.
  intros Hne. unfold obj_set. destruct (has_key k' props).
  - induction props as [|[k1 v1] r IH]; cbn; [done|].
    case_bool_decide as H1; cbn.
    + subst k1. by rewrite !bool_decide_eq_false_2 by done.
    + case_bool_decide; [done | exact IH].
  - destruct (array_index k') as [i|].
    + induction props as [|[k1 v1] r IH]; cbn.
      * by rewrite bool_decide_eq_false_2 by done.
      * destruct (array_index k1) as [j|]; [destruct (j <? i)%N|]; cbn;
          rewrite ?(bool_decide_eq_false_2 (k' = k)) by done; try done.
        case_bool_decide; [done | exact IH].
    + induction props as [|[k1 v1] r IH]; cbn.
      * by rewrite bool_decide_eq_false_2 by done.
      * case_bool_decide; [done | exact IH].
Qed.

Lemma withPriority_not_null v :
  v <> JNull ->
  Persistence.withPriority v =
    Some (JObj (obj_set (js "priority")
                  (Persistence.priority_or_medium (storedPriority v))
                  (Persistence.spread v))).
Proof. by destruct v. Qed.

Lemma withPriority_None v : Persistence.withPriority v = None <-> v = JNull.
Proof. by destruct v. Qed.

Lemma mapM_withPriority elems :
  Forall (fun v => v <> JNull) elems ->
  mapM Persistence.withPriority elems = Some (map loadedItem elems).
Proof.
  intros Hall. apply mapM_Some. induction Hall as [|v l Hv Hl IH]; cbn.
  - constructor.
  - constructor; [|exact IH]. unfold loadedItem.
    by rewrite withPriority_not_null.
Qed.

Lemma mapM_withPriority_null elems :
  In JNull elems -> mapM Persistence.withPriority elems = None.
Proof.
  intros Hin. apply mapM_None, Exists_exists. exists JNull.
  split; [by apply list_elem_of_In | done].
Qed.

Lemma load_of_parsed w c r :
  Persistence.localStorage w !! js "todos" = Some (c :: r) ->
  Persistence.load w =
    match JSON_parse (c :: r) with
    | Parsed parsed =>
      Some (Persistence.setIsHydrated true
              (Persistence.setTodos
                 (default [] (Persistence.Array_map Persistence.withPriority parsed))
                 w))
    | SyntaxError =>
      Some (Persistence.setIsHydrated true (Persistence.setTodos [] w))
    | OutsideModel => None
    end.
Proof.
  intros Hs. unfold Persistence.load. rewrite Hs.
  destruct (JSON_parse (c :: r)) as [parsed| |]; try done.
  by destruct (Persistence.Array_map _ parsed).
Qed.

(** C10, the claim as stated fails: the stored text [[null]] is a JSON
    array, yet it is not accepted with its element loaded as an item; the
    arrow function throws on [null] and the catch leaves the collection
    empty. *)
Lemma load_null_element_counterexample :
  let w := Persistence.mkWorld [] false false {[ js "todos" := js "[null]" ]} [] in
  JSON_parse (js "[null]") = Parsed (JArr [JNull])
  /\ Persistence.todos <$> Persistence.load w = Some []
  /\ length [JNull] <> length (@nil JSValue).
Proof. cbn zeta. split; [|split]; [vm_compute; reflexivity .. | discriminate]. Qed.

(** C10, amended: the load validates nothing. Of a stored JSON array
    without a [null] element every element is loaded as an item, objects
    or not: the item has the own properties of the element, with the
    priority of the element when that is truthy and [medium] when it is
    missing or falsy (the empty string, for one). A stored array with a
    [null] element, a stored JSON value that is no array, and a text that
    does not parse all end, without an error, in the empty collection. *)
Theorem load_accepts_without_validation (w : Persistence.World)
    (sv : jsstring) :
  Persistence.localStorage w !! js "todos" = Some sv -> sv <> [] ->
  (forall elems,
     JSON_parse sv = Parsed (JArr elems) -> Forall (fun v => v <> JNull) elems ->
     Persistence.load w =
       Some (Persistence.setIsHydrated true
               (Persistence.setTodos (map loadedItem elems) w))
     /\ Forall
          (fun v =>
             exists props,
               loadedItem v = JObj props
               /\ obj_get (js "priority") props =
                    Some (match storedPriority v with
                          | Some p => if ToBoolean p then p else JStr (js "medium")
                          | None => JStr (js "medium")
                          end)
               /\ forall k, k <> js "priority" ->
                    obj_get k props = obj_get k (Persistence.spread v))
          elems)
  /\ (forall elems,
        JSON_parse sv = Parsed (JArr elems) -> In JNull elems ->
        Persistence.load w =
          Some (Persistence.setIsHydrated true (Persistence.setTodos [] w)))
  /\ (forall v,
        JSON_parse sv = Parsed v -> (forall elems, v <> JArr elems) ->
        Persistence.load w =
          Some (Persistence.setIsHydrated true (Persistence.setTodos [] w)))
  /\ (JSON_parse sv = SyntaxError ->
      Persistence.load w =
        Some (Persistence.setIsHydrated true (Persistence.setTodos [] w)))
  /\ loadedItem (JNum 5) = JObj [(js "priority", JStr (js "medium"))]
  /\ loadedItem (JObj [(js "id", JNum 1); (js "priority", JStr [])]) =
       JObj [(js "id", JNum 1); (js "priority", JStr (js "medium"))]
  /\ loadedItem (JStr (js "ab")) =
       JObj [(js "0", JStr (js "a")); (js "1", JStr (js "b"));
             (js "priority", JStr (js "medium"))].
Proof.
  intros Hs Hne. destruct sv as [|c r]; [done|].
  rewrite (load_of_parsed w c r Hs).
  split; [|split; [|split; [|split]]].
  - intros elems -> Hall. cbn [Persistence.Array_map].
    rewrite mapM_withPriority by exact Hall. split; [done|].
    eapply Forall_impl; [exact Hall|]. intros v Hv. cbn beta in Hv.
    unfold loadedItem. rewrite withPriority_not_null by exact Hv. cbn.
    eexists. split; [reflexivity|]. split.
    + rewrite obj_get_obj_set. by destruct (storedPriority v).
    + intros k Hk. by apply obj_get_obj_set_ne.
  - intros elems -> Hin. cbn [Persistence.Array_map].
    by rewrite mapM_withPriority_null.
  - intros v -> Hv. destruct v; try done. by destruct (Hv elems).
  - by intros ->.
  - repeat split; vm_compute; reflexivity.
Qed.

Lemma load_accepts_without_validation_witness :
  let sv := json_text "[5, {'priority':''}, 'ab']" in
  let w := Persistence.mkWorld [] false false {[ js "todos" := sv ]} [] in
  Persistence.localStorage w !! js "todos" = Some sv
  /\ sv <> []
  /\ JSON_parse sv =
       Parsed (JArr [JNum 5; JObj [(js "priority", JStr [])]; JStr (js "ab")])
  /\ Persistence.load w =
       Some (Persistence.setIsHydrated true
               (Persistence.setTodos
                  (map loadedItem
                     [JNum 5; JObj [(js "priority", JStr [])]; JStr (js "ab")])
                  w)).
Proof.
  cbn zeta.
  assert (JSON_parse (json_text "[5, {'priority':''}, 'ab']") =
          Parsed (JArr [JNum 5; JObj [(js "priority", JStr [])]; JStr (js "ab")]))
    as Hp by (vm_compute; reflexivity).
  assert (json_text "[5, {'priority':''}, 'ab']" <> []) as Hne
    by (vm_compute; discriminate).
  assert (Persistence.localStorage
            (Persistence.mkWorld [] false false
               {[ js "todos" := json_text "[5, {'priority':''}, 'ab']" ]} [])
            !! js "todos" = Some (json_text "[5, {'priority':''}, 'ab']")) as Hs
    by apply lookup_singleton_eq.
  split; [exact Hs|]. split; [exact Hne|]. split; [exact Hp|].
  refine (proj1 (proj1 (load_accepts_without_validation _ _ Hs Hne) _ Hp _)).
  repeat constructor; discriminate.
Defined.

Local Open Scope N_scope.

(** ** Reading back what [JSON.stringify] writes *)

(** *** Numbers *)

Lemma units_uint_uint_units d : units_uint (uint_units d) = d.
Proof. induction d; cbn; by f_equal. Qed.

Lemma isDigit_uint_units d : forallb isDigit (uint_units d) = true.
Proof. induction d; cbn; done. Qed.

Lemma span_digits_uint_units d rest :
  ends_number rest -> span_digits (uint_units d ++ rest) = (uint_units d, rest).
Proof.
  intros Hr. induction d; cbn [uint_units app span_digits];
    try (change (isDigit _) with true; cbn iota; rewrite IHd; reflexivity).
  destruct rest as [|c r]; [done|]. cbn. destruct Hr as [-> _]. done.
Qed.

Lemma nzhead_not_D0 d u : Decimal.nzhead d <> Decimal.D0 u.
Proof. induction d; cbn; done. Qed.

Lemma to_uint_head p :
  exists c r, uint_units (Pos.to_uint p) = c :: r /\ isDigit c = true /\ c <> 0x30.
Proof.
  pose proof (Unsigned.to_uint_nonzero p) as Hnz.
  pose proof (Unsigned.to_of (Pos.to_uint p)) as Hn.
  rewrite Unsigned.of_to in Hn. cbn in Hn.
  destruct (Pos.to_uint p) as [|d|d|d|d|d|d|d|d|d|d] eqn:E; cbn;
    try (eexists _, _; split; [reflexivity|]; split; [reflexivity|discriminate]).
  - by destruct (Unsigned.to_uint_nonnil p).
  - exfalso. unfold Decimal.unorm in Hn. cbn [Decimal.nzhead] in Hn.
    destruct (Decimal.nzhead d) eqn:En; try discriminate.
    + by apply Hnz.
    + by apply (nzhead_not_D0 d u).
Qed.

Lemma parse_number_Number_toString (n : Z) (rest : jsstring) :
  (Z.abs n <= Z.of_N MAX_SAFE_INTEGER)%Z -> ends_number rest ->
  parse_number (Number_toString n ++ rest) = Parsed (n, rest).
Proof.
  intros Hn Hr.
  assert (forall p, (Z.pos p <= Z.of_N MAX_SAFE_INTEGER)%Z ->
            exists c r, uint_units (Pos.to_uint p) = c :: r /\ (c =? 0x30) = false
              /\ (c =? 0x2D) = false
              /\ span_digits (c :: r ++ rest) = (c :: r, rest)
              /\ digits_value (c :: r) = N.pos p) as Hpos.
  { intros p Hp. destruct (to_uint_head p) as (c & r & E & Hd & Hc).
    exists c, r. split; [done|]. split; [by apply N.eqb_neq|].
    split. { apply N.eqb_neq. intros ->. done. }
    split.
    - change (c :: r ++ rest) with ((c :: r) ++ rest). rewrite <- E.
      by apply span_digits_uint_units.
    - rewrite <- E. unfold digits_value. rewrite units_uint_uint_units.
      apply Unsigned.of_to. }
  assert (forall (dv : N) (z : Z),
            (dv <=? MAX_SAFE_INTEGER) = true ->
            match rest with
            | c :: r =>
              if c =? 0x2E then
                if isEmpty (fst (span_digits r)) then SyntaxError else OutsideModel
              else if (c =? 0x65) || (c =? 0x45) then
                let r' := match r with
                          | sg :: r1 => if (sg =? 0x2B) || (sg =? 0x2D) then r1 else r
                          | [] => r
                          end in
                if isEmpty (fst (span_digits r')) then SyntaxError else OutsideModel
              else if dv <=? MAX_SAFE_INTEGER then Parsed (z, rest)
              else OutsideModel
            | [] => if dv <=? MAX_SAFE_INTEGER then Parsed (z, rest)
                    else OutsideModel
            end = Parsed (z, rest)) as Htail.
  { intros dv z Hm. rewrite Hm.
    destruct rest as [|c r]; [done|]. destruct Hr as (_ & H1 & H2 & H3).
    apply N.eqb_neq in H1, H2, H3. by rewrite H1, H2, H3. }
  destruct n as [|p|p]; unfold parse_number.
  - cbn. destruct rest as [|c r]; [done|]. destruct Hr as (_ & H1 & H2 & H3).
    apply N.eqb_neq in H1, H2, H3. by rewrite H1, H2, H3.
  - destruct (Hpos p Hn) as (c & r & E & Hc0 & Hcm & Hsp & Hv).
    cbn [Number_toString]. rewrite E. cbn [app]. rewrite Hcm, Hc0, Hsp.
    cbn [isEmpty]. rewrite Hv. apply (Htail (N.pos p) (Z.pos p)).
    apply N.leb_le. lia.
  - destruct (Hpos p Hn) as (c & r & E & Hc0 & Hcm & Hsp & Hv).
    cbn [Number_toString]. rewrite E. cbn [app]. rewrite N.eqb_refl, Hc0, Hsp.
    cbn [isEmpty]. rewrite Hv. apply (Htail (N.pos p) (Z.neg p)).
    apply N.leb_le. lia.
Qed.

(** *** Strings *)

Lemma hex_value_hex_digit n : n < 16 -> hex_value (hex_digit n) = Some n.
Proof.
  intros Hn. destruct n as [|p]; [reflexivity|].
  do 4 (destruct p as [p|p|]; try reflexivity); lia.
Qed.

Lemma nibble_lt c : N.land c 15 < 16.
Proof. change 15 with (N.ones 4). rewrite N.land_ones. by apply N.mod_lt. Qed.

Lemma nibbles_value c :
  c < 0x10000 ->
  4096 * N.land (N.shiftr c 12) 15 + 256 * N.land (N.shiftr c 8) 15
  + 16 * N.land (N.shiftr c 4) 15 + N.land c 15 = c.
Proof.
  intros Hc. change 15 with (N.ones 4). rewrite !N.land_ones, !N.shiftr_div_pow2.
  change (2 ^ 12) with 4096. change (2 ^ 8) with 256. change (2 ^ 4) with 16.
  zify. Z.to_euclidean_division_equations. lia.
Qed.

Lemma parse_chars_unicode_escape c rest :
  c < 0x10000 ->
  parse_chars (unicode_escape c ++ rest) = cons_unit c (parse_chars rest).
Proof.
  intros Hc. unfold unicode_escape. cbn [app].
  cbn [parse_chars]. change (BACKSLASH =? QUOTE) with false.
  change (BACKSLASH =? BACKSLASH) with true. change (117 =? 117) with true.
  cbn iota. rewrite !hex_value_hex_digit by apply nibble_lt.
  by rewrite nibbles_value.
Qed.

Lemma parse_chars_plain c r :
  c <> QUOTE -> c <> BACKSLASH -> 0x20 <= c ->
  parse_chars (c :: r) = cons_unit c (parse_chars r).
Proof.
  intros H1 H2 H3. cbn [parse_chars].
  apply N.eqb_neq in H1, H2. rewrite H1, H2.
  by rewrite (proj2 (N.ltb_ge c 0x20) H3).
Qed.

Lemma parse_chars_quote_units_bounded n s rest :
  (length s <= n)%nat -> wf_string s ->
  parse_chars (quote_units s ++ QUOTE :: rest) = Parsed (s, rest).
Proof.
  revert s. induction n as [|n IH]; intros s Hlen Hwf.
  { destruct s; [reflexivity | cbn in Hlen; lia]. }
  destruct s as [|c r]; [reflexivity|].
  apply Forall_cons in Hwf as [Hc Hr]. cbn in Hlen.
  assert (parse_chars (quote_units r ++ QUOTE :: rest) = Parsed (r, rest)) as IHr
    by (apply IH; [lia | done]).
  cbn [quote_units].
  destruct (N.eqb_spec c 0x08) as [->|N1]; [cbn; by rewrite IHr|].
  destruct (N.eqb_spec c 0x09) as [->|N2]; [cbn; by rewrite IHr|].
  destruct (N.eqb_spec c 0x0A) as [->|N3]; [cbn; by rewrite IHr|].
  destruct (N.eqb_spec c 0x0C) as [->|N4]; [cbn; by rewrite IHr|].
  destruct (N.eqb_spec c 0x0D) as [->|N5]; [cbn; by rewrite IHr|].
  destruct (N.eqb_spec c QUOTE) as [->|N6]; [cbn; by rewrite IHr|].
  destruct (N.eqb_spec c BACKSLASH) as [->|N7]; [cbn; by rewrite IHr|].
  destruct (N.ltb_spec c 0x20) as [L|L].
  { rewrite <- app_assoc, parse_chars_unicode_escape by done. by rewrite IHr. }
  destruct (isHighSurrogate c) eqn:Eh.
  - destruct r as [|d r'].
    + rewrite parse_chars_unicode_escape by done. reflexivity.
    + destruct (isLowSurrogate d) eqn:El.
      * apply Forall_cons in Hr as [Hd Hr']. cbn in Hlen.
        cbn [app]. rewrite parse_chars_plain by done.
        unfold isLowSurrogate in El. apply andb_true_iff in El as [E1 E2].
        apply N.leb_le in E1, E2.
        rewrite parse_chars_plain;
          [|unfold QUOTE; lia | unfold BACKSLASH; lia | lia].
        rewrite IH; [done | lia | done].
      * rewrite <- app_assoc, parse_chars_unicode_escape by done. by rewrite IHr.
  - destruct (isLowSurrogate c) eqn:El.
    + rewrite <- app_assoc, parse_chars_unicode_escape by done. by rewrite IHr.
    + cbn [app]. rewrite parse_chars_plain by done. by rewrite IHr.
Qed.

(** A string literal is read back as the string it quotes. *)
Lemma parse_chars_quote_units s rest :
  wf_string s -> parse_chars (quote_units s ++ QUOTE :: rest) = Parsed (s, rest).
Proof. by apply (parse_chars_quote_units_bounded (length s)). Qed.

(** *** Values *)

(** Induction over JSON values, with the hypothesis for every element of
    an array and for every property value of an object. *)
Lemma JSValue_nested_ind (P : JSValue -> Prop) :
  P JNull -> (forall b, P (JBool b)) -> (forall n, P (JNum n)) ->
  (forall s, P (JStr s)) ->
  (forall elems, Forall P elems -> P (JArr elems)) ->
  (forall props, Forall (fun kv => P (snd kv)) props -> P (JObj props)) ->
  forall v, P v.
Proof.
  intros Hnull Hbool Hnum Hstr Harr Hobj. fix IH 1.
  intros [|b|n|s|elems|props];
    [apply Hnull | apply Hbool | apply Hnum | apply Hstr | |].
  - apply Harr. revert elems. fix IHl 1.
    intros [|x l]; constructor; [apply IH | apply IHl].
  - apply Hobj. revert props. fix IHl 1.
    intros [|[k x] l]; constructor; [apply IH | apply IHl].
Qed.

Lemma skip_ws_blank pre s : blank pre -> skip_ws (pre ++ s) = skip_ws s.
Proof.
  unfold blank. induction pre as [|c pre IH]; cbn; [done|].
  intros [-> Hp]%andb_true_iff. auto.
Qed.

Lemma blank_app a b : blank a -> blank b -> blank (a ++ b).
Proof. unfold blank. rewrite forallb_app. by intros -> ->. Qed.

Lemma blank_lead gap indent : blank gap -> blank indent -> blank (lead gap indent).
Proof.
  intros Hg Hi. unfold lead. destruct (isEmpty gap); [done|].
  apply (blank_app [LF]); [done | by apply blank_app].
Qed.

Lemma blank_trail gap indent : blank indent -> blank (trail gap indent).
Proof. intros Hi. unfold trail. destruct (isEmpty gap); [done|]. by apply (blank_app [LF]). Qed.

Lemma blank_colon_space gap : blank (colon_space gap).
Proof. unfold colon_space. by destruct (isEmpty gap). Qed.

Lemma serialize_JArr gap indent x l :
  serialize gap indent (JArr (x :: l)) =
    js "[" ++ lead gap indent
    ++ join (js "," ++ lead gap indent) (map (serialize gap (indent ++ gap)) (x :: l))
    ++ trail gap indent ++ js "]".
Proof.
  cbn [serialize]. unfold lead, trail. cbn [map isEmpty].
  destruct (isEmpty gap); cbn [app]; [done|].
  by rewrite <- !app_assoc.
Qed.

Lemma serialize_JObj gap indent kv props :
  serialize gap indent (JObj (kv :: props)) =
    js "{" ++ lead gap indent
    ++ join (js "," ++ lead gap indent) (map (member gap (indent ++ gap)) (kv :: props))
    ++ trail gap indent ++ js "}".
Proof.
  cbn [serialize]. unfold lead, trail, member, colon_space. cbn [map isEmpty].
  destruct (isEmpty gap); cbn [app]; [done|].
  by rewrite <- !app_assoc.
Qed.

Lemma serialize_head gap indent v :
  exists c tl, serialize gap indent v = c :: tl /\ starts_value c.
Proof.
  destruct v as [|[]|[|p|p]|s|[|x l]|[|kv props]];
    try (eexists _, _; split; [reflexivity|]; by repeat split).
  - destruct (to_uint_head p) as (c & r & E & Hd & _).
    exists c, r. split; [exact E|]. unfold isDigit in Hd.
    apply andb_true_iff in Hd as [H1 H2]. apply N.leb_le in H1, H2.
    split; [|split; lia]. unfold isJSONWhiteSpace.
    repeat (apply orb_false_intro); apply N.eqb_neq; lia.
  - rewrite serialize_JArr. eexists _, _; split; [reflexivity|]; by repeat split.
  - rewrite serialize_JObj. eexists _, _; split; [reflexivity|]; by repeat split.
Qed.

Lemma skip_ws_serialize gap indent v rest :
  skip_ws (serialize gap indent v ++ rest) = serialize gap indent v ++ rest.
Proof.
  destruct (serialize_head gap indent v) as (c & tl & -> & Hc & _).
  cbn. by rewrite Hc.
Qed.

Lemma length_join_ge sep (parts : list jsstring) :
  Forall (fun p => p <> []) parts -> (length parts <= length (join sep parts))%nat.
Proof.
  induction 1 as [|p l Hp Hl IH]; [done|].
  destruct l as [|q l].
  - destruct p; [done|]. cbn. lia.
  - change (join sep (p :: q :: l)) with (p ++ sep ++ join sep (q :: l)).
    destruct p; [done|]. rewrite !length_app. cbn [length] in *. lia.
Qed.

Lemma length_join_elem sep (parts : list jsstring) p :
  In p parts -> (length p <= length (join sep parts))%nat.
Proof.
  induction parts as [|q l IH]; [done|]. intros [->|Hin].
  - destruct l as [|q' l]; [done|].
    change (join sep (p :: q' :: l)) with (p ++ sep ++ join sep (q' :: l)).
    rewrite !length_app. lia.
  - destruct l as [|q' l]; [done|].
    change (join sep (q :: q' :: l)) with (q ++ sep ++ join sep (q' :: l)).
    rewrite !length_app. specialize (IH Hin). lia.
Qed.

Lemma ends_number_closing (closing : jsstring) (c : N) (r : jsstring) :
  blank closing -> c = 0x2C \/ c = 0x5D \/ c = 0x7D ->
  ends_number (closing ++ c :: r).
Proof.
  intros Hb Hc. destruct closing as [|w cl]; cbn.
  - destruct Hc as [-> | [-> | ->]]; by repeat split.
  - unfold blank in Hb. cbn in Hb. apply andb_true_iff in Hb as [Hw _].
    unfold isJSONWhiteSpace in Hw.
    repeat (apply orb_true_iff in Hw as [Hw|Hw]); apply N.eqb_eq in Hw;
      subst w; by repeat split.
Qed.

Lemma skip_ws_closing (closing : jsstring) (c : N) (r : jsstring) :
  blank closing -> c = 0x2C \/ c = 0x5D \/ c = 0x7D ->
  skip_ws (closing ++ c :: r) = c :: r.
Proof.
  intros Hb Hc. rewrite skip_ws_blank by done.
  destruct Hc as [-> | [-> | ->]]; reflexivity.
Qed.

Lemma skip_ws_comma r : skip_ws (js "," ++ r) = 0x2C :: r.
Proof. reflexivity. Qed.

Lemma skip_ws_colon r : skip_ws (js ":" ++ r) = 0x3A :: r.
Proof. reflexivity. Qed.

Section Elements.
Variable parse_one : jsstring -> parse_result (JSValue * jsstring).
Variable ser : JSValue -> jsstring.
Variables pre closing rest : jsstring.
Hypothesis blank_pre : blank pre.
Hypothesis blank_closing : blank closing.

Lemma parse_elements_join (l : list JSValue) :
  forall (acc : list JSValue) (n : nat),
    l <> [] -> (length l <= n)%nat ->
    (forall x, In x l -> forall rest', ends_number rest' ->
       parse_one (pre ++ ser x ++ rest') = Parsed (x, rest')) ->
    parse_elements parse_one n acc
      (pre ++ join (js "," ++ pre) (map ser l) ++ closing ++ js "]" ++ rest)
    = Parsed (JArr (rev acc ++ l), rest).
Proof.
  induction l as [|x l IH]; intros acc n Hne Hn Hpv; [done|].
  destruct n as [|n]; [cbn in Hn; lia|]. cbn [length] in Hn.
  destruct l as [|y l].
  - change (js "]" ++ rest) with (0x5D :: rest).
    cbn [map join parse_elements]. rewrite Hpv; [|by left|].
    + rewrite skip_ws_closing by auto. cbn. done.
    + apply ends_number_closing; auto.
  - change (join (js "," ++ pre) (map ser (x :: y :: l)))
      with (ser x ++ (js "," ++ pre) ++ join (js "," ++ pre) (map ser (y :: l))).
    cbn [parse_elements]. rewrite <- !app_assoc. rewrite Hpv; [|by left|].
    + rewrite skip_ws_comma. change (0x2C =? 0x2C) with true. cbn iota.
      rewrite (IH (x :: acc) n); [| done | cbn [length] in *; lia |].
      * cbn [rev]. by rewrite <- app_assoc.
      * intros x' Hx'. apply Hpv. by right.
    + exact (ends_number_closing [] 0x2C _ eq_refl (or_introl eq_refl)).
Qed.
End Elements.

Section Members.
Variable parse_one : jsstring -> parse_result (JSValue * jsstring).
Variable ser : JSValue -> jsstring.
Variables pre closing colon rest : jsstring.
Hypothesis blank_pre : blank pre.
Hypothesis blank_closing : blank closing.

Lemma obj_set_new k v (acc : list (jsstring * JSValue)) :
  ~ In k (map fst acc) -> array_index k = None ->
  obj_set k v acc = acc ++ [(k, v)].
Proof.
  intros Hk Hi. unfold obj_set. rewrite Hi.
  replace (has_key k acc) with false; [done|].
  symmetry. apply not_true_is_false. intros Hh. apply Hk.
  unfold has_key in Hh. apply existsb_exists in Hh as (kv & Hin & Hkv).
  apply bool_decide_eq_true in Hkv. subst k. by apply in_map.
Qed.

Lemma parse_members_join (props : list (jsstring * JSValue)) :
  forall (acc : list (jsstring * JSValue)) (n : nat),
    props <> [] -> (length props <= n)%nat ->
    (forall kv, In kv props -> forall rest', ends_number rest' ->
       parse_one (colon ++ ser (snd kv) ++ rest') = Parsed (snd kv, rest')) ->
    NoDup (map fst (acc ++ props)) ->
    Forall (fun kv => array_index (fst kv) = None /\ wf_string (fst kv)) props ->
    parse_members parse_one n acc
      (pre ++ join (js "," ++ pre) (map (ser_member ser colon) props)
       ++ closing ++ js "}" ++ rest)
    = Parsed (JObj (acc ++ props), rest).
Proof.
  induction props as [|[k v] l IH]; intros acc n Hne Hn Hpv Hnd Hk; [done|].
  destruct n as [|n]; [cbn in Hn; lia|]. cbn [length] in Hn.
  apply Forall_cons in Hk as [[Hki Hkw] Hk].
  assert (obj_set k v acc = acc ++ [(k, v)]) as Hset.
  { apply obj_set_new; [|done]. rewrite map_app in Hnd.
    apply NoDup_app in Hnd as (_ & Hd & _). intros Hin.
    apply (Hd k); [by apply list_elem_of_In|]. cbn. left. }
  assert (forall tail, ends_number tail ->
            parse_members parse_one (S n) acc
              (pre ++ ser_member ser colon (k, v) ++ tail) =
            match skip_ws tail with
            | d :: r4 =>
              if d =? 0x2C then parse_members parse_one n (acc ++ [(k, v)]) r4
              else if d =? 0x7D then Parsed (JObj (acc ++ [(k, v)]), r4)
              else SyntaxError
            | [] => SyntaxError
            end) as Hstep.
  { intros tail Ht. cbn [parse_members]. rewrite skip_ws_blank by done.
    unfold ser_member, QuoteJSONString. cbn [fst snd app skip_ws].
    change (isJSONWhiteSpace QUOTE) with false. cbn iota.
    change (QUOTE =? QUOTE) with true. cbn iota.
    rewrite <- !app_assoc. cbn [app].
    rewrite parse_chars_quote_units by done.
    rewrite skip_ws_colon. change (0x3A =? 0x3A) with true. cbn iota.
    rewrite (Hpv (k, v)) by (by left || done). cbn [snd]. by rewrite Hset. }
  destruct l as [|[k' v'] l].
  - change (js "}" ++ rest) with (0x7D :: rest).
    cbn [map join]. rewrite Hstep by (apply ends_number_closing; auto).
    rewrite skip_ws_closing by auto. done.
  - change (join (js "," ++ pre) (map (ser_member ser colon) ((k, v) :: (k', v') :: l)))
      with (ser_member ser colon (k, v) ++ (js "," ++ pre)
            ++ join (js "," ++ pre) (map (ser_member ser colon) ((k', v') :: l))).
    rewrite <- !app_assoc.
    rewrite Hstep by exact (ends_number_closing [] 0x2C _ eq_refl (or_introl eq_refl)).
    rewrite skip_ws_comma. change (0x2C =? 0x2C) with true. cbn iota.
    rewrite (IH (acc ++ [(k, v)]) n); [| done | cbn [length] in *; lia | | |done].
    + by rewrite <- app_assoc.
    + intros kv Hkv. apply Hpv. by right.
    + by rewrite <- app_assoc.
Qed.
End Members.

Lemma Number_toString_head (n : Z) :
  exists c tl, Number_toString n = c :: tl /\ (isDigit c = true \/ c = 0x2D).
Proof.
  destruct n as [|p|p]; [by eexists _, _; eauto | | by eexists _, _; eauto].
  destruct (to_uint_head p) as (c & r & E & Hd & _). exists c, r. auto.
Qed.

Lemma parse_value_number f pre c r :
  blank pre -> isDigit c = true \/ c = 0x2D ->
  parse_value (S f) (pre ++ c :: r) =
    match parse_number (c :: r) with
    | Parsed (n, rest) => Parsed (JNum n, rest)
    | SyntaxError => SyntaxError
    | OutsideModel => OutsideModel
    end.
Proof.
  intros Hp Hc. cbn [parse_value]. rewrite skip_ws_blank by done.
  assert (c = 0x2D \/ (0x30 <= c /\ c <= 0x39)) as Hc'.
  { destruct Hc as [Hd | ->]; [right|by left]. unfold isDigit in Hd.
    apply andb_true_iff in Hd as [H1 H2]. by apply N.leb_le in H1, H2. }
  assert (isJSONWhiteSpace c = false) as Hws.
  { unfold isJSONWhiteSpace. repeat (apply orb_false_intro); apply N.eqb_neq; lia. }
  cbn [skip_ws]. rewrite Hws.
  rewrite !(proj2 (N.eqb_neq c _)) by (unfold QUOTE; lia). reflexivity.
Qed.

Lemma parse_value_array f pre r c' r' :
  blank pre -> skip_ws r = c' :: r' -> c' <> 0x5D ->
  parse_value (S f) (pre ++ 0x5B :: r) =
    parse_elements (parse_value f) (length r) [] r.
Proof.
  intros Hp Hr Hc. cbn [parse_value]. rewrite skip_ws_blank by done.
  cbn [skip_ws]. change (isJSONWhiteSpace 0x5B) with false. cbn iota.
  change (0x5B =? 0x5B) with true. cbn iota. rewrite Hr.
  by rewrite (proj2 (N.eqb_neq c' _) Hc).
Qed.

Lemma parse_value_object f pre r c' r' :
  blank pre -> skip_ws r = c' :: r' -> c' <> 0x7D ->
  parse_value (S f) (pre ++ 0x7B :: r) =
    parse_members (parse_value f) (length r) [] r.
Proof.
  intros Hp Hr Hc. cbn [parse_value]. rewrite skip_ws_blank by done.
  cbn [skip_ws]. change (isJSONWhiteSpace 0x7B) with false. cbn iota.
  change (0x7B =? 0x5B) with false. change (0x7B =? 0x7B) with true. cbn iota.
  rewrite Hr. by rewrite (proj2 (N.eqb_neq c' _) Hc).
Qed.

Lemma join_head sep (p : jsstring) ps : exists tl, join sep (p :: ps) = p ++ tl.
Proof.
  destruct ps as [|q ps]; [exists []; cbn; by rewrite app_nil_r|].
  by eexists.
Qed.

(** What [serialize] writes, [parse_value] reads back, whatever white
    space comes before it and whatever text that does not continue a
    number comes after it. *)
Theorem parse_value_serialize (v : JSValue) :
  forall (gap indent pre rest : jsstring) (fuel : nat),
    blank gap -> blank indent -> blank pre -> wf_value v -> ends_number rest ->
    (length (serialize gap indent v) <= fuel)%nat ->
    parse_value fuel (pre ++ serialize gap indent v ++ rest) = Parsed (v, rest).
Proof.
  induction v as [|b|n|s|elems IH|props IH] using JSValue_nested_ind;
    intros gap indent pre rest fuel Hg Hi Hp Hwf Hr Hlen;
    (destruct fuel as [|f];
     [match type of Hlen with
      | (length (serialize _ _ ?v) <= _)%nat =>
        destruct (serialize_head gap indent v) as (c & tl & E & _)
      end; rewrite E in Hlen; cbn in Hlen; lia|]).
  - cbn [parse_value]. rewrite skip_ws_blank by done. reflexivity.
  - cbn [parse_value]. rewrite skip_ws_blank by done. by destruct b.
  - inversion Hwf as [| |n' Hn| | |]; subst.
    cbn [serialize].
    destruct (Number_toString_head n) as (c & tl & E & Hc).
    pose proof (parse_number_Number_toString n rest Hn Hr) as Hpn.
    rewrite E in *. cbn [app] in *.
    rewrite parse_value_number by done. by rewrite Hpn.
  - inversion Hwf as [| | |s' Hs| |]; subst.
    cbn [parse_value]. rewrite skip_ws_blank by done.
    cbn [serialize]. unfold QuoteJSONString. cbn [app skip_ws].
    change (isJSONWhiteSpace QUOTE) with false. cbn iota.
    change (QUOTE =? 0x5B) with false. change (QUOTE =? 0x7B) with false.
    change (QUOTE =? QUOTE) with true. cbn iota.
    rewrite <- app_assoc. cbn [app].
    by rewrite parse_chars_quote_units.
  - inversion Hwf as [| | | |elems' He|]; subst.
    destruct elems as [|x l].
    { cbn [parse_value]. rewrite skip_ws_blank by done. reflexivity. }
    rewrite serialize_JArr in *. rewrite <- !app_assoc.
    set (ser := serialize gap (indent ++ gap)) in *.
    set (parts := map ser (x :: l)) in *.
    assert (Forall (fun p => p <> []) parts) as Hparts.
    { apply Forall_forall. intros p Hin. unfold parts in Hin.
      apply list_elem_of_In, in_map_iff in Hin as (y & <- & _).
      destruct (serialize_head gap (indent ++ gap) y) as (c & tl & E & _).
      unfold ser. by rewrite E. }
    rewrite !length_app in Hlen.
    change (length (js "[")) with 1%nat in Hlen.
    change (length (js "]")) with 1%nat in Hlen.
    change (js "[" ++ ?X) with (0x5B :: X).
    destruct (join_head (js "," ++ lead gap indent) (ser x) (map ser l))
      as [tl Etl].
    destruct (serialize_head gap (indent ++ gap) x) as (c' & tl' & E' & _ & Hc' & _).
    rewrite (parse_value_array f pre _ c' (tl' ++ tl ++ trail gap indent ++ js "]" ++ rest));
      [|done| |done].
    2:{ rewrite skip_ws_blank by (by apply blank_lead).
        unfold parts. cbn [map]. rewrite Etl, <- !app_assoc.
        unfold ser at 1. by rewrite skip_ws_serialize, E'. }
    unfold parts.
    rewrite (parse_elements_join (parse_value f) ser (lead gap indent)
               (trail gap indent) rest (blank_trail _ _ Hi)
               (x :: l) []); [reflexivity | done | |].
    + rewrite !length_app.
      pose proof (length_join_ge (js "," ++ lead gap indent) parts Hparts) as Hj.
      unfold parts in *. rewrite length_map in Hj. lia.
    + intros y Hy rest' Hr'.
      pose proof (proj1 (Forall_forall _ _) IH y (proj2 (list_elem_of_In _ _) Hy)) as IHy.
      apply IHy; try done.
      * by apply blank_app.
      * by apply blank_lead.
      * by apply (proj1 (Forall_forall _ _) He y), list_elem_of_In.
      * pose proof (length_join_elem (js "," ++ lead gap indent) parts (ser y)) as Hj.
        specialize (Hj (in_map _ _ _ Hy)). unfold parts, ser in *. lia.
  - inversion Hwf as [| | | | |props' Hnd Hk]; subst.
    destruct props as [|kv l].
    { cbn [parse_value]. rewrite skip_ws_blank by done. reflexivity. }
    rewrite serialize_JObj in *. rewrite <- !app_assoc.
    set (ser := serialize gap (indent ++ gap)) in *.
    change (member gap (indent ++ gap)) with (ser_member ser (colon_space gap)) in *.
    set (parts := map (ser_member ser (colon_space gap)) (kv :: l)) in *.
    assert (Forall (fun p => p <> []) parts) as Hparts.
    { apply Forall_forall. intros p Hin. unfold parts in Hin.
      apply list_elem_of_In, in_map_iff in Hin as (y & <- & _). done. }
    rewrite !length_app in Hlen.
    change (length (js "{")) with 1%nat in Hlen.
    change (length (js "}")) with 1%nat in Hlen.
    change (js "{" ++ ?X) with (0x7B :: X).
    destruct (join_head (js "," ++ lead gap indent)
                (ser_member ser (colon_space gap) kv)
                (map (ser_member ser (colon_space gap)) l)) as [tl Etl].
    assert (exists r', skip_ws (lead gap indent
                 ++ join (js "," ++ lead gap indent) parts
                 ++ trail gap indent ++ js "}" ++ rest) = QUOTE :: r') as [r0 Hr0].
    { rewrite skip_ws_blank by (by apply blank_lead).
      unfold parts. cbn [map]. rewrite Etl.
      unfold ser_member, QuoteJSONString. cbn [app skip_ws].
      change (isJSONWhiteSpace QUOTE) with false. by eexists. }
    rewrite (parse_value_object f pre _ QUOTE r0 Hp Hr0); [|done].
    unfold parts.
    rewrite (parse_members_join (parse_value f) ser (lead gap indent)
               (trail gap indent) (colon_space gap) rest (blank_lead _ _ Hg Hi)
               (blank_trail _ _ Hi) (kv :: l) []); [reflexivity | done | | | done |].
    + rewrite !length_app.
      pose proof (length_join_ge (js "," ++ lead gap indent) parts Hparts) as Hj.
      unfold parts in *. rewrite length_map in Hj. lia.
    + intros y Hy rest' Hr'.
      pose proof (proj1 (Forall_forall _ _) IH y (proj2 (list_elem_of_In _ _) Hy)) as IHy.
      apply IHy; try done.
      * by apply blank_app.
      * apply blank_colon_space.
      * by apply (proj1 (Forall_forall _ _) Hk y), list_elem_of_In.
      * pose proof (length_join_elem (js "," ++ lead gap indent) parts
                      (ser_member ser (colon_space gap) y)) as Hj.
        specialize (Hj (in_map _ _ _ Hy)). unfold ser_member in Hj.
        rewrite !length_app in Hj. unfold parts, ser in *. lia.
    + eapply Forall_impl; [exact Hk|]. intros y Hy. cbn beta in Hy. tauto.
Qed.

(** [JSON.parse] reads back what [JSON.stringify] writes, with whatever
    indentation. *)
Theorem JSON_parse_stringify (gap : jsstring) (v : JSValue) :
  blank gap -> wf_value v -> JSON_parse (serialize gap [] v) = Parsed v.
Proof.
  intros Hg Hwf. unfold JSON_parse.
  pose proof (parse_value_serialize v gap [] [] [] (S (length (serialize gap [] v)))
                Hg eq_refl eq_refl Hwf I) as Hp.
  cbn [app] in Hp. rewrite app_nil_r in Hp. rewrite Hp by lia. reflexivity.
Qed.

Local Open Scope Z_scope.

(** ** Load, then save *)

Lemma load_then_save_parsed (sv : jsstring) (elems : list JSValue) :
  sv <> [] -> JSON_parse sv = Parsed (JArr elems) ->
  Forall (fun v => v <> JNull) elems ->
  load_then_save sv = Some (JSON_stringify (JArr (map loadedItem elems))).
Proof.
  intros Hne Hp Hall. unfold load_then_save.
  cbn [Persistence.run Persistence.step Persistence.mount Persistence.save
       Persistence.isHydrated Persistence.microtaskQueued].
  set (w0 := Persistence.dequeue
               (Persistence.mkWorld [] false true {[ js "todos" := sv ]} [])).
  destruct sv as [|c r]; [done|].
  assert (Persistence.localStorage w0 !! js "todos" = Some (c :: r)) as Hs
    by apply lookup_singleton_eq.
  rewrite (load_of_parsed w0 c r Hs), Hp. cbn [Persistence.Array_map].
  rewrite mapM_withPriority by exact Hall. cbn.
  by rewrite lookup_insert_eq.
Qed.

Lemma loadedItem_Todo_toJS (t : Todo) : loadedItem (Todo_toJS t) = Todo_toJS t.
Proof. destruct t as [i tx c []]; reflexivity. Qed.

(** C5, the claim as stated fails: a stored text that parses as one
    item-like record with a priority, but has a space after a colon, is
    written back without the space. *)
Lemma load_save_whitespace_counterexample :
  let sv := json_text "[{'id': 1,'text':'a','completed':false,'priority':'high'}]" in
  JSON_parse sv = Parsed (JArr [Todo_toJS (mkTodo 1 (js "a") false high)])
  /\ Persistence.item_like (Todo_toJS (mkTodo 1 (js "a") false high)) = true
  /\ load_then_save sv =
       Some (json_text "[{'id':1,'text':'a','completed':false,'priority':'high'}]")
  /\ load_then_save sv <> Some sv.
Proof.
  cbn zeta. repeat split; try (vm_compute; reflexivity).
  vm_compute. discriminate.
Qed.

Lemma wf_string_literal (s : jsstring) :
  forallb (fun c => c <? 0x10000)%N s = true -> wf_string s.
Proof.
  intros Hs. apply Forall_forall. intros c Hc.
  rewrite forallb_forall in Hs. apply N.ltb_lt, Hs. by apply list_elem_of_In.
Qed.

Lemma wf_value_Todo_toJS (t : Todo) : wf_todo t -> wf_value (Todo_toJS t).
Proof.
  intros [Hid Htx]. constructor.
  - apply (bool_decide_unpack _). vm_compute. exact I.
  - repeat constructor; try by apply wf_string_literal.
    all: try done.
    destruct (priority t); by apply wf_string_literal.
Qed.

Lemma wf_value_legacy_toJS (t : Todo) : wf_todo t -> wf_value (legacy_toJS t).
Proof.
  intros [Hid Htx]. constructor.
  - apply (bool_decide_unpack _). vm_compute. exact I.
  - repeat constructor; try by apply wf_string_literal.
    all: done.
Qed.

Lemma loadedItem_legacy_toJS (t : Todo) :
  loadedItem (legacy_toJS t) = Todo_toJS (with_medium t).
Proof. reflexivity. Qed.

Lemma JSON_stringify_array_not_empty (elems : list JSValue) :
  JSON_stringify (JArr elems) <> [].
Proof.
  unfold JSON_stringify.
  by destruct (serialize_head [] [] (JArr elems)) as (c & tl & -> & _).
Qed.

Lemma load_then_save_stringified (elems : list JSValue) :
  Forall wf_value elems -> Forall (fun v => v <> JNull) elems ->
  load_then_save (JSON_stringify (JArr elems)) =
    Some (JSON_stringify (JArr (map loadedItem elems))).
Proof.
  intros Hwf Hnn. apply load_then_save_parsed; [|  |exact Hnn].
  - apply JSON_stringify_array_not_empty.
  - apply (JSON_parse_stringify []); [done | by constructor].
Qed.

(** C5, amended: for every stored text that parses as a sequence of
    records, load followed at once by save writes the canonical
    serialization ([JSON.stringify]) of the records, each with a missing or
    falsy priority set to [medium]. The written text equals the stored one
    byte for byte when the stored text is itself canonical, as every text
    is that the component saved from items with a priority; a canonical
    text of records without a priority field comes back with the field
    ["priority":"medium"] added to each record. *)
Theorem load_then_save_canonical :
  (forall (sv : jsstring) (elems : list JSValue),
     sv <> [] -> JSON_parse sv = Parsed (JArr elems) ->
     Forall (fun v => v <> JNull) elems ->
     load_then_save sv = Some (JSON_stringify (JArr (map loadedItem elems))))
  /\ (forall items : list Todo,
        Forall wf_todo items ->
        load_then_save (JSON_stringify (JArr (map Todo_toJS items))) =
          Some (JSON_stringify (JArr (map Todo_toJS items))))
  /\ (forall items : list Todo,
        Forall wf_todo items ->
        load_then_save (JSON_stringify (JArr (map legacy_toJS items))) =
          Some (JSON_stringify (JArr (map Todo_toJS (map with_medium items))))).
Proof.
  split; [exact load_then_save_parsed|]. split.
  - intros items Hwf. rewrite load_then_save_stringified.
    + rewrite map_map. do 3 f_equal. apply map_ext. apply loadedItem_Todo_toJS.
    + apply Forall_map. eapply Forall_impl; [exact Hwf|].
      apply wf_value_Todo_toJS.
    + apply Forall_map. by apply Forall_forall.
  - intros items Hwf. rewrite load_then_save_stringified.
    + rewrite !map_map. do 3 f_equal.
    + apply Forall_map. eapply Forall_impl; [exact Hwf|].
      apply wf_value_legacy_toJS.
    + apply Forall_map. by apply Forall_forall.
Qed.

Lemma load_then_save_canonical_witness :
  let items := [mkTodo 1730620800000 (js "Buy milk") false high;
                mkTodo 1730620800001 (js "Say " ++ QUOTE :: js "hi" ++ [QUOTE]) true low] in
  Forall wf_todo items
  /\ load_then_save (JSON_stringify (JArr (map Todo_toJS items))) =
       Some (JSON_stringify (JArr (map Todo_toJS items)))
  /\ load_then_save (json_text "[{'id':7,'text':'a','completed':true}]") =
       Some (json_text "[{'id':7,'text':'a','completed':true,'priority':'medium'}]").
Proof.
  cbn zeta.
  assert (Forall wf_todo
            [mkTodo 1730620800000 (js "Buy milk") false high;
             mkTodo 1730620800001 (js "Say " ++ QUOTE :: js "hi" ++ [QUOTE]) true low])
    as Hwf.
  { repeat constructor; cbn; try lia; by apply wf_string_literal. }
  split; [exact Hwf|]. split.
  - exact (proj1 (proj2 load_then_save_canonical) _ Hwf).
  - assert (Forall wf_todo [mkTodo 7 (js "a") true high]) as Hwf1.
    { repeat constructor; cbn; try lia; by apply wf_string_literal. }
    exact (proj2 (proj2 load_then_save_canonical) _ Hwf1).
Defined.

(** ** The json export *)

Lemma wf_string_app (a b : jsstring) :
  wf_string a -> wf_string b -> wf_string (a ++ b).
Proof. apply Forall_app_2. Qed.

Lemma wf_string_uint_units (d : Decimal.uint) : wf_string (uint_units d).
Proof. induction d; cbn; constructor; done. Qed.

Lemma wf_string_Number_toString (z : Z) : wf_string (Number_toString z).
Proof.
  destruct z; cbn; [by repeat constructor | apply wf_string_uint_units |].
  constructor; [done | apply wf_string_uint_units].
Qed.

Lemma wf_string_pad (n : nat) (z : Z) : wf_string (pad n z).
Proof.
  unfold pad, padStart0. apply wf_string_app; [|apply wf_string_Number_toString].
  induction (n - _)%nat; cbn; [constructor | by constructor].
Qed.

Lemma wf_string_toISOString (d : Date) : wf_string (toISOString d).
Proof.
  unfold toISOString.
  destruct (_ && _); [|destruct (_ <? _)];
    repeat first [ apply wf_string_pad
                 | by apply wf_string_literal
                 | apply wf_string_app ].
Qed.

Lemma count_le (f : Todo -> bool) (l : list Todo) :
  0 <= count f l <= Z.of_nat (length l).
Proof.
  unfold count. pose proof (filter_length_le f l). lia.
Qed.

Lemma wf_value_exportObject (now : Date) (items : list Todo) :
  Forall wf_todo items -> Z.of_nat (length items) <= Z.of_N MAX_SAFE_INTEGER ->
  wf_value (exportObject now items).
Proof.
  intros Hwf Hlen. pose proof (count_le completed items) as Hc. constructor.
  - apply (bool_decide_unpack _). vm_compute. exact I.
  - repeat constructor; try by apply wf_string_literal.
    + apply wf_string_toISOString.
    + lia.
    + lia.
    + apply Forall_map. eapply Forall_impl; [exact Hwf|].
      apply wf_value_Todo_toJS.
Qed.

Lemma check_range_spec (P : Z -> bool) (len : positive) :
  forall lo, check_range P lo len = true ->
  forall z, lo <= z < lo + Z.pos len -> P z = true.
Proof.
  induction len as [p IH|p IH|]; intros lo Hc z Hz; cbn in Hc.
  - apply andb_true_iff in Hc as [Hc H2]. apply andb_true_iff in Hc as [H0 H1].
    destruct (Z.eq_dec z lo) as [->|Hne]; [done|].
    destruct (Z_lt_le_dec z (lo + 1 + Z.pos p)).
    + apply (IH _ H1). lia.
    + apply (IH _ H2). lia.
  - apply andb_true_iff in Hc as [H1 H2].
    destruct (Z_lt_le_dec z (lo + Z.pos p)).
    + apply (IH _ H1). lia.
    + apply (IH _ H2). lia.
  - by replace z with lo by lia.
Qed.

Lemma pad2_digits (z : Z) : 0 <= z < 100 -> digitsb 2 (pad 2 z) = true.
Proof.
  apply (check_range_spec (fun z => digitsb 2 (pad 2 z)) 100 0).
  vm_compute. reflexivity.
Qed.

Lemma pad3_digits (z : Z) : 0 <= z < 1000 -> digitsb 3 (pad 3 z) = true.
Proof.
  apply (check_range_spec (fun z => digitsb 3 (pad 3 z)) 1000 0).
  vm_compute. reflexivity.
Qed.

Lemma pad4_digits (z : Z) : 0 <= z < 10000 -> digitsb 4 (pad 4 z) = true.
Proof.
  apply (check_range_spec (fun z => digitsb 4 (pad 4 z)) 10000 0).
  vm_compute. reflexivity.
Qed.

Lemma month_day_range (doe : Z) :
  0 <= doe < 146097 ->
  1 <= fst (month_day_of_era_day doe) <= 12
  /\ 1 <= snd (month_day_of_era_day doe) <= 31.
Proof.
  intros Hd.
  assert (check_range month_day_ok 0 146097 = true) as Hall
    by (vm_compute; reflexivity).
  pose proof (check_range_spec month_day_ok 146097 0 Hall doe Hd) as Hok.
  unfold month_day_ok in Hok. cbn zeta in Hok.
  rewrite !andb_true_iff, !Z.leb_le in Hok. lia.
Qed.

Lemma civil_from_days_range (days : Z) :
  1 <= snd (fst (civil_from_days days)) <= 12
  /\ 1 <= snd (civil_from_days days) <= 31.
Proof.
  unfold civil_from_days. cbn zeta.
  set (doe := days + 719468 - (days + 719468) / 146097 * 146097).
  assert (0 <= doe < 146097) as Hd
    by (unfold doe; pose proof (Z.mod_pos_bound (days + 719468) 146097);
        rewrite Z.mod_eq in * by lia; lia).
  apply (month_day_range doe Hd).
Qed.

(** For an instant in the years 0 to 9999, [toISOString] has the ISO-8601
    shape. *)
Lemma toISOString_iso8601 (d : Date) :
  0 <= YearFromTime (getTime d) <= 9999 -> iso8601_utc (toISOString d).
Proof.
  intros Hy. unfold toISOString. cbn zeta.
  replace ((0 <=? YearFromTime (getTime d)) && (YearFromTime (getTime d) <=? 9999))
    with true by (symmetry; apply andb_true_iff; split; apply Z.leb_le; lia).
  pose proof (civil_from_days_range (getTime d / msPerDay)) as [Hm Hd].
  eexists _, _, _, _, _, _, _. split; [reflexivity|].
  repeat split.
  - apply pad4_digits. lia.
  - apply pad2_digits. unfold MonthFromTime. lia.
  - apply pad2_digits. unfold DateFromTime. lia.
  - apply pad2_digits. unfold HourFromTime.
    pose proof (Z.mod_pos_bound (getTime d / 3600000) 24). lia.
  - apply pad2_digits. unfold MinFromTime.
    pose proof (Z.mod_pos_bound (getTime d / 60000) 60). lia.
  - apply pad2_digits. unfold SecFromTime.
    pose proof (Z.mod_pos_bound (getTime d / 1000) 60). lia.
  - apply pad3_digits. unfold msFromTime.
    pose proof (Z.mod_pos_bound (getTime d) 1000). lia.
Qed.

(** C9: the json export is the serialization, pretty-printed with an
    indentation of two spaces, of an object with the export time as
    [toISOString] gives it (of ISO-8601 shape), the number of items, the
    number of completed items (the length of the list of the items whose
    [completed] is true) and the array of all item records; read as
    JSON it is that object. For the single item of the example the object
    has total 1, completed 0 and a todos array with exactly that record. *)
Theorem json_export_layout `{Runtime} (now : Date) (items : list Todo) :
  generateExportContent json now items =
    js "{" ++ LF :: js "  " ++ QUOTE :: js "exportTime" ++ QUOTE :: js ": "
    ++ QuoteJSONString (toISOString now) ++ js ","
    ++ LF :: js "  " ++ QUOTE :: js "total" ++ QUOTE :: js ": "
    ++ Number_toString (Z.of_nat (length items)) ++ js ","
    ++ LF :: js "  " ++ QUOTE :: js "completed" ++ QUOTE :: js ": "
    ++ Number_toString (Z.of_nat (length (List.filter completed items))) ++ js ","
    ++ LF :: js "  " ++ QUOTE :: js "todos" ++ QUOTE :: js ": "
    ++ serialize (js "  ") (js "  ") (JArr (map Todo_toJS items))
    ++ LF :: js "}"
  /\ serialize (js "  ") (js "  ") (JArr (map Todo_toJS items)) =
       match items with
       | [] => js "[]"
       | _ :: _ =>
         js "[" ++ LF :: js "    "
         ++ join (js "," ++ LF :: js "    ")
              (map
                 (fun t =>
                    js "{" ++ LF :: js "      " ++ QUOTE :: js "id" ++ QUOTE :: js ": "
                    ++ Number_toString (id t) ++ js ","
                    ++ LF :: js "      " ++ QUOTE :: js "text" ++ QUOTE :: js ": "
                    ++ QuoteJSONString (text t) ++ js ","
                    ++ LF :: js "      " ++ QUOTE :: js "completed" ++ QUOTE :: js ": "
                    ++ Boolean_toString (completed t) ++ js ","
                    ++ LF :: js "      " ++ QUOTE :: js "priority" ++ QUOTE :: js ": "
                    ++ QuoteJSONString (Priority_toString (priority t))
                    ++ LF :: js "    }")
                 items)
         ++ LF :: js "  ]"
       end
  /\ (Forall wf_todo items ->
      Z.of_nat (length items) <= Z.of_N MAX_SAFE_INTEGER ->
      JSON_parse (generateExportContent json now items) =
        Parsed (JObj [(js "exportTime", JStr (toISOString now));
                      (js "total", JNum (Z.of_nat (length items)));
                      (js "completed", JNum (Z.of_nat (length (List.filter completed items))));
                      (js "todos", JArr (map Todo_toJS items))]))
  /\ (0 <= YearFromTime (getTime now) <= 9999 -> iso8601_utc (toISOString now))
  /\ JSON_parse (generateExportContent json now [buyMilk]) =
       Parsed (JObj [(js "exportTime", JStr (toISOString now));
                     (js "total", JNum 1);
                     (js "completed", JNum 0);
                     (js "todos",
                      JArr [JObj [(js "id", JNum 1);
                                  (js "text", JStr (js "Buy milk"));
                                  (js "completed", JBool false);
                                  (js "priority", JStr (js "high"))]])]).
Proof.
  assert (forall l, Forall wf_todo l ->
            Z.of_nat (length l) <= Z.of_N MAX_SAFE_INTEGER ->
            JSON_parse (generateExportContent json now l) =
              Parsed (exportObject now l)) as Hparse.
  { intros l Hwf Hlen. unfold generateExportContent, JSON_stringify_indent.
    apply (JSON_parse_stringify (js "  ")); [done|].
    by apply wf_value_exportObject. }
  split; [|split; [|split; [|split]]].
  - unfold generateExportContent, JSON_stringify_indent. cbn [Nat.min repeat_].
    change (js " " ++ js " " ++ []) with (js "  ").
    cbn [serialize map fst snd isEmpty join]. rewrite <- !app_assoc. reflexivity.
  - destruct items as [|t l]; [reflexivity|].
    change (map Todo_toJS (t :: l)) with (Todo_toJS t :: map Todo_toJS l).
    rewrite serialize_JArr. unfold lead, trail.
    change (isEmpty (js "  ")) with false. cbn iota.
    change (Todo_toJS t :: map Todo_toJS l) with (map Todo_toJS (t :: l)).
    rewrite (map_map Todo_toJS).
    match goal with
    | |- _ = _ ++ _ :: _ ++ join _ (map ?g _) ++ _ =>
      rewrite (map_ext _ g); [reflexivity|]
    end.
    intros t'. cbn [serialize map fst snd isEmpty join Todo_toJS].
    rewrite <- !app_assoc. reflexivity.
  - apply Hparse.
  - apply toISOString_iso8601.
  - apply (Hparse [buyMilk]); [|cbn; unfold MAX_SAFE_INTEGER; lia].
    repeat constructor; cbn; lia.
Qed.

Lemma json_export_layout_witness :
  let now := mkDate 1709210096789 (-480) in
  let items := [buyMilk; mkTodo 2 (js "Walk") true low;
                mkTodo 3 (js "Read") true medium] in
  Forall wf_todo items
  /\ Z.of_nat (length items) <= Z.of_N MAX_SAFE_INTEGER
  /\ 0 <= YearFromTime (getTime now) <= 9999
  /\ JSON_parse (generateExportContent (H := sampleHost) json now items) =
       Parsed (JObj [(js "exportTime", JStr (js "2024-02-29T12:34:56.789Z"));
                     (js "total", JNum 3);
                     (js "completed", JNum 2);
                     (js "todos",
                      JArr [JObj [(js "id", JNum 1);
                                  (js "text", JStr (js "Buy milk"));
                                  (js "completed", JBool false);
                                  (js "priority", JStr (js "high"))];
                            JObj [(js "id", JNum 2);
                                  (js "text", JStr (js "Walk"));
                                  (js "completed", JBool true);
                                  (js "priority", JStr (js "low"))];
                            JObj [(js "id", JNum 3);
                                  (js "text", JStr (js "Read"));
                                  (js "completed", JBool true);
                                  (js "priority", JStr (js "medium"))]])])
  /\ iso8601_utc (js "2024-02-29T12:34:56.789Z").
Proof.
  cbn zeta.
  assert (Forall wf_todo
            [buyMilk; mkTodo 2 (js "Walk") true low;
             mkTodo 3 (js "Read") true medium]) as Hwf
    by (repeat constructor; cbn; lia).
  assert (Z.of_nat (length [buyMilk; mkTodo 2 (js "Walk") true low;
                            mkTodo 3 (js "Read") true medium])
          <= Z.of_N MAX_SAFE_INTEGER) as Hlen
    by (vm_compute; discriminate).
  assert (0 <= YearFromTime (getTime (mkDate 1709210096789 (-480))) <= 9999)
    as Hy by (vm_compute; split; discriminate).
  split; [exact Hwf|]. split; [exact Hlen|]. split; [exact Hy|].
  pose proof (json_export_layout (H := sampleHost)
                (mkDate 1709210096789 (-480))
                [buyMilk; mkTodo 2 (js "Walk") true low;
                 mkTodo 3 (js "Read") true medium])
    as (_ & _ & Hparse & Hiso & _).
  split; [exact (Hparse Hwf Hlen) | exact (Hiso Hy)].
Defined.

(** * Further properties of the handlers *)

(** ** Completion and deletion *)

Lemma State_eq (s : State) :
  mkState (todos s) (inputValue s) (selectedPriority s) (selectedIds s)
    (exportDropdownOpen s) = s.
Proof. by destruct s. Qed.

(** X1: [toggleTodo] is an involution on the whole state; it keeps ids,
    texts, priorities and the order of the items, flips [completed] of
    exactly the items with the given id, and changes nothing when no item
    has that id. *)
Theorem toggleTodo_involution (i : Z) (s : State) :
  toggleTodo i (toggleTodo i s) = s
  /\ map id (todos (toggleTodo i s)) = map id (todos s)
  /\ map text (todos (toggleTodo i s)) = map text (todos s)
  /\ map priority (todos (toggleTodo i s)) = map priority (todos s)
  /\ map completed (todos (toggleTodo i s)) =
       map (fun t => if id t =? i then negb (completed t) else completed t)
         (todos s)
  /\ (~ In i (map id (todos s)) -> toggleTodo i s = s).
Proof.
  assert (forall l : list Todo,
            map (fun todo => if id todo =? i
                             then mkTodo (id todo) (text todo)
                                    (negb (completed todo)) (priority todo)
                             else todo)
              (map (fun todo => if id todo =? i
                                then mkTodo (id todo) (text todo)
                                       (negb (completed todo)) (priority todo)
                                else todo) l) = l) as Htwice.
  { intros l. rewrite map_map. rewrite <- (map_id l) at 2. apply map_ext.
    intros [j tx c p]. cbn. destruct (j =? i) eqn:E; cbn; [|by rewrite E].
    by rewrite E, negb_involutive. }
  split; [|split; [|split; [|split; [|split]]]].
  - unfold toggleTodo, setTodos; cbn. rewrite Htwice. apply State_eq.
  - unfold toggleTodo; cbn. rewrite map_map. apply map_ext.
    intros t. by destruct (id t =? i).
  - unfold toggleTodo; cbn. rewrite map_map. apply map_ext.
    intros t. by destruct (id t =? i).
  - unfold toggleTodo; cbn. rewrite map_map. apply map_ext.
    intros t. by destruct (id t =? i).
  - unfold toggleTodo; cbn. rewrite map_map. apply map_ext.
    intros t. by destruct (id t =? i).
  - intros Hni. destruct s as [l iv sp sel o].
    unfold toggleTodo, setTodos; cbn in *. f_equal.
    rewrite <- (map_id l) at 2. apply map_ext_in.
    intros t Hin. destruct (Z.eqb_spec (id t) i) as [<-|]; [|done].
    destruct Hni. by apply in_map.
Qed.

Lemma toggleTodo_involution_witness :
  let s := mkState [mkTodo 1 (js "a") false medium] [] medium ∅ false in
  ~ In 7 (map id (todos s)) /\ toggleTodo 7 s = s.
Proof.
  cbn zeta.
  assert (~ In 7 (map id [mkTodo 1 (js "a") false medium])) as Hni
    by (cbn; lia).
  split; [exact Hni|].
  exact (proj2 (proj2 (proj2 (proj2 (proj2
           (toggleTodo_involution 7
              (mkState [mkTodo 1 (js "a") false medium] [] medium ∅ false))))))
           Hni).
Defined.

Lemma filter_filter_same {A} (f : A -> bool) (l : list A) :
  List.filter f (List.filter f l) = List.filter f l.
Proof.
  induction l as [|x l IH]; [done|]. cbn. destruct (f x) eqn:E; cbn.
  - by rewrite E, IH.
  - exact IH.
Qed.

Lemma filter_all {A} (f : A -> bool) (l : list A) :
  (forall x, In x l -> f x = true) -> List.filter f l = l.
Proof.
  induction l as [|x l IH]; intros Hall; [done|]. cbn.
  rewrite (Hall x) by (by left). f_equal. apply IH. intros y Hy.
  apply Hall. by right.
Qed.

(** X2: [deleteTodo] removes every item with the given id and keeps the
    other items in their order; the id is then neither among the items nor
    in the selection; a second call changes nothing; and when no item has
    the id and the id is not selected, the first call changes nothing. *)
Theorem deleteTodo_spec (i : Z) (s : State) :
  todos (deleteTodo i s) = List.filter (fun todo => negb (id todo =? i)) (todos s)
  /\ ~ In i (map id (todos (deleteTodo i s)))
  /\ (i ∉ selectedIds (deleteTodo i s))
  /\ (forall j, j <> i ->
        (j ∈ selectedIds (deleteTodo i s) <-> j ∈ selectedIds s)
        /\ (In j (map id (todos (deleteTodo i s))) <-> In j (map id (todos s))))
  /\ deleteTodo i (deleteTodo i s) = deleteTodo i s
  /\ (~ In i (map id (todos s)) -> i ∉ selectedIds s -> deleteTodo i s = s).
Proof.
  split; [done|]. split; [|split; [|split; [|split]]].
  - cbn. rewrite in_map_iff. intros (t & Ht & Hin).
    apply filter_In in Hin as [_ Hne]. apply negb_true_iff, Z.eqb_neq in Hne.
    done.
  - cbn. set_solver.
  - intros j Hj. split; [cbn; set_solver|]. cbn.
    rewrite !in_map_iff. split; intros (t & Ht & Hin); exists t; split; try done.
    + by apply filter_In in Hin as [Hin _].
    + apply filter_In. split; [done|]. apply negb_true_iff, Z.eqb_neq. lia.
  - unfold deleteTodo, setTodos, setSelectedIds; cbn.
    rewrite filter_filter_same. f_equal. set_solver.
  - intros Hni Hns. destruct s as [l iv sp sel o].
    unfold deleteTodo, setTodos, setSelectedIds; cbn in *. f_equal.
    + apply filter_all. intros t Hin. apply negb_true_iff, Z.eqb_neq.
      intros <-. destruct Hni. by apply in_map.
    + set_solver.
Qed.

Lemma deleteTodo_spec_witness :
  let s := mkState [mkTodo 1 (js "a") false medium] [] medium ∅ false in
  ~ In 7 (map id (todos s)) /\ (7 ∉ selectedIds s) /\ deleteTodo 7 s = s.
Proof.
  cbn zeta.
  assert (~ In 7 (map id [mkTodo 1 (js "a") false medium])) as Hni
    by (cbn; lia).
  assert (7 ∉ (∅ : gset Z)) as Hns by set_solver.
  split; [exact Hni|]. split; [exact Hns|].
  exact (proj2 (proj2 (proj2 (proj2 (proj2
           (deleteTodo_spec 7
              (mkState [mkTodo 1 (js "a") false medium] [] medium ∅ false))))))
           Hni Hns).
Defined.

(** ** Selection *)

(** X3: [toggleSelect] is an involution on the whole state; one call
    changes the membership of the given id in the selection and of no
    other, and leaves the items alone. *)
Theorem toggleSelect_involution (i : Z) (s : State) :
  toggleSelect i (toggleSelect i s) = s
  /\ todos (toggleSelect i s) = todos s
  /\ (i ∈ selectedIds (toggleSelect i s) <-> i ∉ selectedIds s)
  /\ (forall j, j <> i ->
        (j ∈ selectedIds (toggleSelect i s) <-> j ∈ selectedIds s)).
Proof.
  destruct s as [l iv sp sel o]. unfold toggleSelect, setSelectedIds; cbn.
  split; [|split; [done|split]].
  - f_equal. destruct (decide (i ∈ sel)) as [Hi|Hi].
    + rewrite (bool_decide_eq_true_2 _ Hi).
      rewrite bool_decide_eq_false_2 by set_solver.
      apply set_eq. intros x. destruct (decide (x = i)); set_solver.
    + rewrite (bool_decide_eq_false_2 _ Hi).
      rewrite bool_decide_eq_true_2 by set_solver. set_solver.
  - destruct (decide (i ∈ sel)) as [Hi|Hi].
    + rewrite (bool_decide_eq_true_2 _ Hi). set_solver.
    + rewrite (bool_decide_eq_false_2 _ Hi). set_solver.
  - intros j Hj. destruct (decide (i ∈ sel)) as [Hi|Hi].
    + rewrite (bool_decide_eq_true_2 _ Hi). set_solver.
    + rewrite (bool_decide_eq_false_2 _ Hi). set_solver.
Qed.

(** X4: [batchDelete] keeps exactly the items whose id is not selected, in
    their order, and empties the selection; no kept item was selected; a
    second call changes nothing; with nothing selected among the items the
    list stays as it is, and with every item selected it becomes empty. *)
Theorem batchDelete_spec (s : State) :
  todos (batchDelete s) =
    List.filter (fun todo => negb (bool_decide (id todo ∈ selectedIds s))) (todos s)
  /\ selectedIds (batchDelete s) = ∅
  /\ (forall t, In t (todos (batchDelete s)) ->
        In t (todos s) /\ (id t ∉ selectedIds s))
  /\ batchDelete (batchDelete s) = batchDelete s
  /\ ((forall t, In t (todos s) -> id t ∉ selectedIds s) ->
      todos (batchDelete s) = todos s)
  /\ ((forall t, In t (todos s) -> id t ∈ selectedIds s) ->
      todos (batchDelete s) = []).
Proof.
  split; [done|]. split; [done|]. split; [|split; [|split]].
  - intros t Hin. cbn in Hin. apply filter_In in Hin as [Hin Hns].
    split; [done|]. apply negb_true_iff in Hns.
    by apply bool_decide_eq_false in Hns.
  - destruct s as [l iv sp sel o].
    unfold batchDelete, setSelectedIds, setTodos; cbn. f_equal.
    apply filter_all. intros t _. apply negb_true_iff, bool_decide_eq_false.
    set_solver.
  - intros Hnone. cbn. apply filter_all. intros t Hin.
    apply negb_true_iff, bool_decide_eq_false. by apply Hnone.
  - intros Hall. cbn. induction (todos s) as [|t l IH]; [done|]. cbn.
    rewrite bool_decide_eq_true_2 by (apply Hall; by left). cbn.
    apply IH. intros t' Ht'. apply Hall. by right.
Qed.

Lemma batchDelete_spec_witness :
  let s := mkState [mkTodo 1 (js "a") false medium; mkTodo 2 (js "b") true low]
             [] medium {[ 1; 2 ]} false in
  (forall t, In t (todos s) -> id t ∈ selectedIds s)
  /\ todos (batchDelete s) = [].
Proof.
  cbn zeta.
  assert (forall t,
            In t [mkTodo 1 (js "a") false medium; mkTodo 2 (js "b") true low] ->
            id t ∈ ({[ 1; 2 ]} : gset Z)) as Hall.
  { intros t [<- | [<- | []]]; cbn; set_solver. }
  split; [exact Hall|].
  exact (proj2 (proj2 (proj2 (proj2 (proj2
           (batchDelete_spec
              (mkState [mkTodo 1 (js "a") false medium; mkTodo 2 (js "b") true low]
                 [] medium {[ 1; 2 ]} false))))))
           Hall).
Defined.

(** X5: the select-all check box is never checked and indeterminate at
    once. When the items have distinct ids and the selection is a subset
    of them, it is checked exactly when there are items and all are
    selected, and indeterminate exactly when the selection is neither
    empty nor all; after [toggleSelectAll] it is not indeterminate, and it
    is checked unless the list is empty or was fully selected. *)
Theorem select_all_indicator (s : State) :
  selectAllChecked s && indeterminate s = false
  /\ (NoDup (map id (todos s)) -> selection_valid s ->
      (selectAllChecked s = true <-> todos s <> [] /\ selectedIds s = ids s)
      /\ (indeterminate s = true <->
          selectedIds s <> ∅ /\ selectedIds s <> ids s)
      /\ indeterminate (toggleSelectAll s) = false
      /\ selectAllChecked (toggleSelectAll s) =
           negb (selectAllChecked s) && negb (isEmpty (todos s))).
Proof.
  split.
  { unfold selectAllChecked, indeterminate.
    destruct (Nat.eqb_spec (size (selectedIds s)) (length (todos s)));
      destruct (Nat.ltb_spec 0 (length (todos s)));
      destruct (Nat.ltb_spec 0 (size (selectedIds s)));
      destruct (Nat.ltb_spec (size (selectedIds s)) (length (todos s)));
      cbn; try done; lia. }
  intros Hnd Hv. pose proof (size_ids s Hnd) as Hsz.
  pose proof (subseteq_size _ _ Hv) as Hle. rewrite Hsz in Hle.
  split; [|split; [|split]].
  - unfold selectAllChecked. rewrite andb_true_iff, Nat.eqb_eq, Nat.ltb_lt.
    split.
    + intros [He Hpos]. split.
      * intros Hnil. rewrite Hnil in Hpos. cbn in Hpos. lia.
      * apply set_subseteq_size_eq; [done | lia].
    + intros [Hne He]. rewrite He, Hsz. split; [done|].
      destruct (todos s); [done | cbn; lia].
  - unfold indeterminate. rewrite andb_true_iff, !Nat.ltb_lt. split.
    + intros [Hpos Hlt]. split.
      * intros He. rewrite He, size_empty in Hpos. lia.
      * intros He. rewrite He, Hsz in Hlt. lia.
    + intros [Hne Hnf]. split.
      * destruct (size (selectedIds s)) eqn:E; [|lia].
        apply size_empty_iff in E. by apply leibniz_equiv in E.
      * destruct (Nat.eq_dec (size (selectedIds s)) (length (todos s))) as [E|];
          [|lia].
        destruct Hnf. apply set_subseteq_size_eq; [done | lia].
  - unfold toggleSelectAll, indeterminate.
    destruct (Nat.eqb_spec (size (selectedIds s)) (length (todos s)));
      cbn [selectedIds todos setSelectedIds].
    + by rewrite size_empty.
    + fold (ids s). rewrite Hsz.
      destruct (Nat.ltb_spec (length (todos s)) (length (todos s))); [lia|].
      apply andb_false_r.
  - unfold toggleSelectAll, selectAllChecked.
    destruct (Nat.eqb_spec (size (selectedIds s)) (length (todos s))) as [E|E];
      cbn [selectedIds todos setSelectedIds negb andb].
    + rewrite size_empty. by destruct (todos s).
    + fold (ids s). rewrite Hsz, Nat.eqb_refl. by destruct (todos s).
Qed.

Lemma select_all_indicator_witness :
  let s := mkState [mkTodo 1 (js "a") false medium; mkTodo 2 (js "b") true low]
             [] medium {[ 1 ]} false in
  NoDup (map id (todos s)) /\ selection_valid s
  /\ indeterminate s = true
  /\ indeterminate (toggleSelectAll s) = false
  /\ selectAllChecked (toggleSelectAll s) = true.
Proof.
  cbn zeta.
  assert (NoDup (map id [mkTodo 1 (js "a") false medium; mkTodo 2 (js "b") true low]))
    as Hnd by (apply (bool_decide_unpack _); vm_compute; exact I).
  assert (selection_valid
            (mkState [mkTodo 1 (js "a") false medium; mkTodo 2 (js "b") true low]
               [] medium {[ 1 ]} false)) as Hv.
  { unfold selection_valid, ids; cbn. set_solver. }
  split; [exact Hnd|]. split; [exact Hv|].
  pose proof (proj2 (select_all_indicator
                (mkState [mkTodo 1 (js "a") false medium; mkTodo 2 (js "b") true low]
                   [] medium {[ 1 ]} false)) Hnd Hv) as (_ & _ & Hi & Hc).
  split; [vm_compute; reflexivity|]. split; [exact Hi|].
  rewrite Hc. vm_compute. reflexivity.
Defined.

(** ** The items of every reachable state *)






















(** ** What the rendered controls can do *)

Lemma rendered_Select_present (i : Z) (s : State) :
  rendered (Select i) s = true -> i ∈ ids s.
Proof.
  cbn. intros Hex. apply existsb_exists in Hex as (t & Hin & Ht).
  apply Z.eqb_eq in Ht. subst i. unfold ids.
  apply elem_of_list_to_set, list_elem_of_In. by apply in_map.
Qed.

Lemma exportScope_selected_nonempty (s : State) :
  selection_valid s -> (0 < size (selectedIds s))%nat ->
  exportScope true s <> [].
Proof.
  intros Hv Hpos. apply size_pos_elem_of in Hpos as [x Hx].
  pose proof (Hv x Hx) as Hin. unfold ids in Hin.
  apply elem_of_list_to_set, list_elem_of_In, in_map_iff in Hin
    as (t & <- & Hin).
  intros Hnil.
  assert (In t (exportScope true s)) as Hin'.
  { cbn. apply filter_In. split; [done|]. by apply bool_decide_eq_true. }
  by rewrite Hnil in Hin'.
Qed.

Lemma step_rendered_no_alert `{Runtime} (c : Command) (s : State) :
  selection_valid s -> rendered c s = true ->
  existsb isAlert (snd (step c s)) = false.
Proof.
  intros Hv Hr. destruct c; try done. cbn [step].
  cbn [rendered] in Hr. apply andb_true_iff in Hr as [Hr Hsel].
  apply andb_true_iff in Hr as [Hlen _]. apply Nat.ltb_lt in Hlen.
  assert (exportScope onlySelected s <> []) as Hne.
  { destruct onlySelected.
    - apply exportScope_selected_nonempty; [done|]. by apply Nat.ltb_lt.
    - cbn. intros Hnil. rewrite Hnil in Hlen. cbn in Hlen. lia. }
  unfold exportTodos. fold (exportScope onlySelected s).
  destruct (exportScope onlySelected s); [done|]. reflexivity.
Qed.

(** X8: in every run, from a state whose selection is a subset of the
    present ids (the initial state is one), in which each command is
    issued by a control that is rendered at that moment, the selection
    stays a subset of the present ids and no alert is ever raised: the
    "nothing to export" and "nothing selected" notices cannot be reached
    through the rendered controls. *)
Theorem rendered_run_never_alerts `{Runtime} (cs : list Command) (s : State) :
  selection_valid s -> rendered_run cs s ->
  selection_valid (run cs s) /\ existsb isAlert (effects cs s) = false.
Proof.
  revert s. induction cs as [|c cs IH]; intros s Hv Hr; [done|].
  destruct Hr as [Hc Hr].
  assert (selection_valid (fst (step c s))) as Hv'.
  { apply step_selection_valid; [done|]. intros i ->.
    by apply rendered_Select_present. }
  destruct (IH _ Hv' Hr) as [Hvr Hnone]. split; [exact Hvr|].
  cbn [effects]. rewrite existsb_app, Hnone.
  by rewrite (step_rendered_no_alert c s Hv Hc).
Qed.

Lemma rendered_run_never_alerts_witness :
  let cs := [TypeInput (js "a"); Add 5; Select 5; ToggleExportMenu;
             Export csv true (mkDate 0 0) (mkDate 0 0); BatchDelete] in
  selection_valid initialState
  /\ rendered_run (H := sampleHost) cs initialState
  /\ existsb isAlert (effects (H := sampleHost) cs initialState) = false.
Proof.
  cbn zeta.
  assert (selection_valid initialState) as Hv.
  { unfold selection_valid, ids; cbn. set_solver. }
  assert (rendered_run (H := sampleHost)
            [TypeInput (js "a"); Add 5; Select 5; ToggleExportMenu;
             Export csv true (mkDate 0 0) (mkDate 0 0); BatchDelete]
            initialState) as Hr.
  { vm_compute. repeat split. }
  split; [exact Hv|]. split; [exact Hr|].
  exact (proj2 (rendered_run_never_alerts (H := sampleHost) _ _ Hv Hr)).
Defined.

(** ** Exporting *)

Lemma digitsb_app (a b : nat) (x y : jsstring) :
  digitsb a x = true -> digitsb b y = true -> digitsb (a + b) (x ++ y) = true.
Proof.
  unfold digitsb. rewrite !andb_true_iff, !Nat.eqb_eq.
  intros [Ha Hx] [Hb Hy]. rewrite length_app, forallb_app, Hx, Hy. split; [lia|done].
Qed.

Lemma year4_digits (z : Z) :
  1000 <= z < 10000 -> digitsb 4 (Number_toString z) = true.
Proof.
  intros Hz.
  apply (check_range_spec (fun z => digitsb 4 (Number_toString z)) 9000 1000);
    [vm_compute; reflexivity | lia].
Qed.

Lemma decimalValue_app (a b : jsstring) :
  decimalValue (a ++ b) =
    decimalValue a * 10 ^ Z.of_nat (length b) + decimalValue b.
Proof.
  unfold decimalValue. rewrite fold_left_app.
  generalize (fold_left (fun acc c => 10 * acc + (Z.of_N c - 0x30)) a 0).
  induction b as [|c b IH]; intros acc; [cbn; lia|].
  cbn [fold_left length]. rewrite IH, (IH (10 * 0 + (Z.of_N c - 48))).
  rewrite Nat2Z.inj_succ, Z.pow_succ_r by lia. lia.
Qed.

Lemma digitsb_length (n : nat) (s : jsstring) :
  digitsb n s = true -> length s = n.
Proof.
  unfold digitsb. intros Hd. apply andb_true_iff in Hd as [Hl _].
  by apply Nat.eqb_eq.
Qed.

Lemma decimalValue_pad2 (z : Z) : 0 <= z < 100 -> decimalValue (pad 2 z) = z.
Proof.
  intros Hz. apply Z.eqb_eq.
  apply (check_range_spec (fun z => decimalValue (pad 2 z) =? z) 100 0);
    [vm_compute; reflexivity | lia].
Qed.

Lemma decimalValue_year4 (z : Z) :
  1000 <= z < 10000 -> decimalValue (Number_toString z) = z.
Proof.
  intros Hz. apply Z.eqb_eq.
  apply (check_range_spec (fun z => decimalValue (Number_toString z) =? z)
           9000 1000); [vm_compute; reflexivity | lia].
Qed.

(** The hour, the minute and the second of an instant give the second of
    its day. *)
Lemma second_of_day (t : Z) :
  HourFromTime t * 3600 + MinFromTime t * 60 + SecFromTime t =
    (t / 1000) mod 86400.
Proof.
  unfold HourFromTime, MinFromTime, SecFromTime.
  replace (t / 3600000) with (t / 1000 / 3600)
    by (rewrite Z.div_div by lia; reflexivity).
  replace (t / 60000) with (t / 1000 / 60)
    by (rewrite Z.div_div by lia; reflexivity).
  generalize (t / 1000). intros q.
  replace (q / 3600) with (q / 60 / 60)
    by (rewrite Z.div_div by lia; reflexivity).
  pose proof (Z.div_mod q 60 ltac:(lia)).
  pose proof (Z.mod_pos_bound q 60 ltac:(lia)).
  pose proof (Z.div_mod (q / 60) 60 ltac:(lia)).
  pose proof (Z.mod_pos_bound (q / 60) 60 ltac:(lia)).
  pose proof (Z.div_mod (q / 60 / 60) 24 ltac:(lia)).
  pose proof (Z.mod_pos_bound (q / 60 / 60) 24 ltac:(lia)).
  apply (Z.mod_unique q 86400 (q / 60 / 60 / 24)); lia.
Qed.

(** X9: when there is something to export, [exportTodos] closes the menu,
    leaves items and selection alone and hands over exactly one file: its
    content is the formatted export of the items in scope, its type the
    MIME type of the format, and its name [todos], then [_selected] for an
    export of the selection only, then an underscore, the date, an
    underscore, the time, a dot and the format. The date and the time are
    those of the second clock reading in local time (the reading less the
    time zone offset): the time is six digits that spell hour, minute and
    second, two digits each, which together are the second of the local
    day; for a local year of four digits the date is eight digits that
    spell the year, the month from 1 to 12 and the day of the month. An
    export of the selection when every item is selected covers all
    items. *)
Theorem exportTodos_download `{Runtime} (format : ExportFormat)
    (onlySelected : bool) (now1 now2 : Date) (s : State) :
  exportScope onlySelected s <> [] ->
  exists date time : jsstring,
    date = Number_toString (getFullYear now2) ++ pad 2 (getMonth now2 + 1)
           ++ pad 2 (getDate now2)
    /\ time = pad 2 (getHours now2) ++ pad 2 (getMinutes now2)
              ++ pad 2 (getSeconds now2)
    /\ exportTodos format onlySelected now1 now2 s =
      (setExportDropdownOpen false s,
       [Download (generateExportContent format now1 (exportScope onlySelected s))
          (js "todos" ++ (if onlySelected then js "_selected" else [])
           ++ js "_" ++ date ++ js "_" ++ time ++ js "."
           ++ ExportFormat_toString format)
          (mimeTypes format)])
    /\ (1000 <= getFullYear now2 <= 9999 ->
        digitsb 8 date = true
        /\ decimalValue date =
             getFullYear now2 * 10000 + (getMonth now2 + 1) * 100
             + getDate now2)
    /\ 1 <= getMonth now2 + 1 <= 12
    /\ 1 <= getDate now2 <= 31
    /\ digitsb 6 time = true
    /\ decimalValue time =
         getHours now2 * 10000 + getMinutes now2 * 100 + getSeconds now2
    /\ 0 <= getHours now2 < 24
    /\ 0 <= getMinutes now2 < 60
    /\ 0 <= getSeconds now2 < 60
    /\ getHours now2 * 3600 + getMinutes now2 * 60 + getSeconds now2 =
         ((getTime now2 - getTimezoneOffset now2 * 60000) / 1000) mod 86400
    /\ ((forall t, In t (todos s) -> id t ∈ selectedIds s) ->
        exportScope true s = todos s).
Proof.
  intros Hne.
  pose proof (civil_from_days_range (LocalTime now2 / msPerDay)) as [Hm Hd].
  assert (1 <= getMonth now2 + 1 <= 12) as Hmonth
    by (unfold getMonth, MonthFromTime; lia).
  assert (1 <= getDate now2 <= 31) as Hday
    by (unfold getDate, DateFromTime; lia).
  assert (0 <= getHours now2 < 24) as Hhour.
  { unfold getHours, HourFromTime. apply Z.mod_pos_bound. lia. }
  assert (0 <= getMinutes now2 < 60) as Hmin.
  { unfold getMinutes, MinFromTime. apply Z.mod_pos_bound. lia. }
  assert (0 <= getSeconds now2 < 60) as Hsec.
  { unfold getSeconds, SecFromTime. apply Z.mod_pos_bound. lia. }
  pose proof (pad2_digits (getMonth now2 + 1) ltac:(lia)) as Dm.
  pose proof (pad2_digits (getDate now2) ltac:(lia)) as Dd.
  pose proof (pad2_digits (getHours now2) ltac:(lia)) as Dh.
  pose proof (pad2_digits (getMinutes now2) ltac:(lia)) as Dmi.
  pose proof (pad2_digits (getSeconds now2) ltac:(lia)) as Ds.
  eexists _, _. split; [reflexivity|]. split; [reflexivity|].
  split; [|split; [|split; [|split; [|split; [|split; [|split;
    [|split; [|split; [|split]]]]]]]]]; try done.
  - unfold exportTodos. fold (exportScope onlySelected s).
    destruct (exportScope onlySelected s) eqn:E; [done|].
    cbn [length Nat.eqb]. rewrite <- !app_assoc. reflexivity.
  - intros Hy.
    pose proof (year4_digits (getFullYear now2) ltac:(lia)) as Dy.
    split.
    + apply (digitsb_app 4 4); [exact Dy|]. by apply (digitsb_app 2 2).
    + rewrite !decimalValue_app, length_app.
      rewrite (digitsb_length _ _ Dm), (digitsb_length _ _ Dd).
      rewrite decimalValue_year4, !decimalValue_pad2 by lia.
      cbn [Nat.add Z.of_nat]. lia.
  - apply (digitsb_app 2 4); [exact Dh|]. by apply (digitsb_app 2 2).
  - rewrite !decimalValue_app, length_app.
    rewrite (digitsb_length _ _ Dmi), (digitsb_length _ _ Ds).
    rewrite !decimalValue_pad2 by lia. cbn [Nat.add Z.of_nat]. lia.
  - unfold getHours, getMinutes, getSeconds. apply second_of_day.
  - intros Hall. cbn. apply filter_all. intros t Hin.
    apply bool_decide_eq_true. by apply Hall.
Qed.

Lemma exportTodos_download_witness :
  let s := mkState [mkTodo 1 (js "a") false medium; mkTodo 2 (js "b") true low]
             [] medium {[ 1 ]} true in
  let now1 := mkDate 1709210096789 (-480) in
  let now2 := mkDate 1709210097203 (-480) in
  exportScope true s <> []
  /\ snd (exportTodos (H := sampleHost) json true now1 now2 s) =
       [Download
          (generateExportContent (H := sampleHost) json now1
             [mkTodo 1 (js "a") false medium])
          (js "todos_selected_20240229_203457.json")
          (js "application/json;charset=utf-8")]
  /\ snd (exportTodos (H := sampleHost) csv false now1
            (mkDate 1704067199000 300) s) =
       [Download
          (generateExportContent (H := sampleHost) csv now1 (todos s))
          (js "todos_20231231_185959.csv")
          (js "text/csv;charset=utf-8")].
Proof.
  cbn zeta.
  assert (exportScope true
            (mkState [mkTodo 1 (js "a") false medium; mkTodo 2 (js "b") true low]
               [] medium {[ 1 ]} true)
          <> []) as Hne by (vm_compute; discriminate).
  assert (exportScope false
            (mkState [mkTodo 1 (js "a") false medium; mkTodo 2 (js "b") true low]
               [] medium {[ 1 ]} true)
          <> []) as Hne' by (vm_compute; discriminate).
  split; [exact Hne|]. split.
  - destruct (exportTodos_download (H := sampleHost) json true
                (mkDate 1709210096789 (-480)) (mkDate 1709210097203 (-480))
                _ Hne) as (date & time & -> & -> & -> & _).
    vm_compute. reflexivity.
  - destruct (exportTodos_download (H := sampleHost) csv false
                (mkDate 1709210096789 (-480)) (mkDate 1704067199000 300)
                _ Hne') as (date & time & -> & -> & -> & _).
    vm_compute. reflexivity.
Defined.

Lemma count_partition (f : Todo -> bool) (l : list Todo) :
  count f l + count (fun t => negb (f t)) l = Z.of_nat (length l).
Proof.
  unfold count. induction l as [|t l IH]; [done|].
  cbn [List.filter]. destruct (f t); cbn [negb length]; lia.
Qed.

Lemma count_priorities (l : list Todo) :
  count (fun t => bool_decide (priority t = high)) l
  + count (fun t => bool_decide (priority t = medium)) l
  + count (fun t => bool_decide (priority t = low)) l = Z.of_nat (length l).
Proof.
  unfold count. induction l as [|t l IH]; [done|].
  cbn [List.filter].
  destruct (priority t) eqn:E; repeat case_bool_decide; try congruence;
    cbn [length]; lia.
Qed.

(** X10: the txt export is the title line with the localized time, a rule
    of fifty [=], an empty line, one line per item (completion mark,
    priority icon, priority label in brackets, text), an empty line (none
    when there is no item line before it), a second rule, and two lines of
    counts. The counts printed are the number of items, the number of
    items that are completed, the number of those that are not, and the
    numbers of items of high, of medium and of low priority; the completed
    and the not completed counts add up to the number of items, and so do
    the three priority counts. *)
Theorem txt_export_statistics `{Runtime} (now : Date) (items : list Todo) :
  generateExportContent txt now items =
    js "待办事项列表 - 导出时间: " ++ toLocaleString_zhCN now
    ++ LF :: repeat_ (js "=") 50 ++ [LF] ++ [LF]
    ++ join [LF]
         (map (fun t =>
                 js "[" ++ (if completed t then js "✓" else js "✗") ++ js "] "
                 ++ priorityIcon (priority t) ++ js " ["
                 ++ priorityLabels (priority t) ++ js "] " ++ text t) items)
    ++ [LF] ++ LF :: repeat_ (js "=") 50
    ++ LF :: js "统计: 共" ++ Number_toString (Z.of_nat (length items))
    ++ js "项 | 已完成"
    ++ Number_toString (Z.of_nat (length (List.filter completed items)))
    ++ js "项 | 未完成"
    ++ Number_toString
         (Z.of_nat (length (List.filter (fun t => negb (completed t)) items)))
    ++ js "项"
    ++ LF :: js "优先级: 高"
    ++ Number_toString
         (Z.of_nat (length (List.filter
                              (fun t => bool_decide (priority t = high)) items)))
    ++ js "项 | 中"
    ++ Number_toString
         (Z.of_nat (length (List.filter
                              (fun t => bool_decide (priority t = medium)) items)))
    ++ js "项 | 低"
    ++ Number_toString
         (Z.of_nat (length (List.filter
                              (fun t => bool_decide (priority t = low)) items)))
    ++ js "项"
  /\ (length (List.filter completed items)
      + length (List.filter (fun t => negb (completed t)) items)
      = length items)%nat
  /\ (length (List.filter (fun t => bool_decide (priority t = high)) items)
      + length (List.filter (fun t => bool_decide (priority t = medium)) items)
      + length (List.filter (fun t => bool_decide (priority t = low)) items)
      = length items)%nat.
Proof.
  split; [|split].
  - unfold generateExportContent. cbn zeta. unfold txtLine, count.
    rewrite <- !app_assoc. cbn [app]. rewrite <- !app_assoc. reflexivity.
  - pose proof (count_partition completed items) as Hc. unfold count in Hc. lia.
  - pose proof (count_priorities items) as Hc. unfold count in Hc. lia.
Qed.

Lemma txt_export_statistics_witness :
  let now := mkDate 1709210096789 (-480) in
  let items := [mkTodo 1 (js "Buy milk") false high;
                mkTodo 2 (js "Walk") true low;
                mkTodo 3 (js "Read") true low] in
  generateExportContent (H := sampleHost) txt now items =
    js "待办事项列表 - 导出时间: 2024/2/29 20:34:56"
    ++ LF :: js "=================================================="
    ++ LF :: LF :: js "[✗] 🔴 [高] Buy milk"
    ++ LF :: js "[✓] ⚪ [低] Walk"
    ++ LF :: js "[✓] ⚪ [低] Read"
    ++ LF :: LF :: js "=================================================="
    ++ LF :: js "统计: 共3项 | 已完成2项 | 未完成1项"
    ++ LF :: js "优先级: 高1项 | 中0项 | 低2项".
Proof.
  cbn zeta.
  rewrite (proj1 (txt_export_statistics (H := sampleHost)
                    (mkDate 1709210096789 (-480))
                    [mkTodo 1 (js "Buy milk") false high;
                     mkTodo 2 (js "Walk") true low;
                     mkTodo 3 (js "Read") true low])).
  vm_compute. reflexivity.
Defined.

(** ** The text field of a csv row *)

Lemma readQuoted_escaped (t : jsstring) (c : N) (rest : jsstring) :
  c <> QUOTE ->
  readQuoted (replaceAll QUOTE [QUOTE; QUOTE] t ++ QUOTE :: c :: rest) =
    Some (t, c :: rest).
Proof.
  intros Hc. induction t as [|x t IH].
  - cbn. by destruct (N.eqb_spec c QUOTE).
  - unfold replaceAll in *. cbn [flat_map].
    destruct (N.eqb_spec x QUOTE) as [->|Hx].
    + cbn [app readQuoted]. rewrite N.eqb_refl, IH. reflexivity.
    + cbn [app readQuoted]. destruct (N.eqb_spec x QUOTE); [done|].
      rewrite IH. reflexivity.
Qed.

(** X11: whatever the text of an item holds (commas, line feeds, quotes),
    a reader of quoted fields gets it back from the csv row: after the
    tab, the id, a comma and the opening quote, reading the quoted field
    yields the text of the item and leaves the rest of the row, from the
    comma before the completion flag on. So two items with different texts
    never have the same text field. *)
Theorem csv_text_field_reads_back (todo : Todo) :
  (exists quoted : jsstring,
     csvRow todo = TAB :: Number_toString (id todo) ++ js "," ++ QUOTE :: quoted
     /\ readQuoted quoted =
          Some (text todo,
                js "," ++ Boolean_toString (completed todo) ++ js ","
                ++ (if completed todo then js "已完成" else js "未完成")
                ++ js "," ++ priorityLabels (priority todo)))
  /\ (forall other : Todo,
        replaceAll QUOTE [QUOTE; QUOTE] (text todo) =
          replaceAll QUOTE [QUOTE; QUOTE] (text other) ->
        text todo = text other).
Proof.
  split.
  - eexists. split; [reflexivity|].
    change (js ",") with [0x2C%N]. cbn [app].
    by apply readQuoted_escaped.
  - intros other Heq.
    pose proof (readQuoted_escaped (text todo) 0x2C [] ltac:(done)) as H1.
    pose proof (readQuoted_escaped (text other) 0x2C [] ltac:(done)) as H2.
    rewrite Heq, H2 in H1. congruence.
Qed.

(** ** From one session to the next *)

Lemma JSON_stringify_empty_array : JSON_stringify (JArr []) = js "[]".
Proof. vm_compute. reflexivity. Qed.

Lemma unreadable_load (w : Persistence.World) (c : N) (r : jsstring) :
  Persistence.localStorage w !! js "todos" = Some (c :: r) ->
  unreadable (c :: r) ->
  Persistence.load w =
    Some (Persistence.setIsHydrated true (Persistence.setTodos [] w)).
Proof.
  intros Hs Hu. rewrite (load_of_parsed w c r Hs).
  destruct Hu as [-> | (v & -> & [Hv | (elems & -> & Hin)])]; [done| |].
  - destruct v; try done. by destruct (Hv elems).
  - cbn [Persistence.Array_map]. by rewrite mapM_withPriority_null.
Qed.

(** X12: what one session saved, the next one shows. When a hydrated
    component sets its items (ids safe integers), the text it writes to
    the key [todos] is such that a component mounted later over that
    store, once its queued load has run, has exactly these items, each
    with its id, text, completion and priority; and the write that follows
    this load leaves the store as it was. *)
Theorem saved_items_restored (w : Persistence.World) (items : list Todo) :
  Persistence.isHydrated w = true -> Forall wf_todo items ->
  exists w1 w2 : Persistence.World,
    Persistence.step (Persistence.SetTodos (map Todo_toJS items)) w = Some w1
    /\ nextSession (Persistence.localStorage w1) = Some w2
    /\ Persistence.todos w2 = map Todo_toJS items
    /\ Persistence.isHydrated w2 = true
    /\ Persistence.localStorage w2 = Persistence.localStorage w1.
Proof.
  intros Hh Hwf.
  set (sv := JSON_stringify (JArr (map Todo_toJS items))).
  set (store := <[js "todos" := sv]> (Persistence.localStorage w)).
  assert (exists c r, sv = c :: r) as (c & r & Hsv).
  { destruct sv as [|c r] eqn:E; [|by eauto].
    by destruct (JSON_stringify_array_not_empty (map Todo_toJS items)). }
  assert (JSON_parse (c :: r) = Parsed (JArr (map Todo_toJS items))) as Hp.
  { rewrite <- Hsv. apply (JSON_parse_stringify []); [done|].
    constructor. apply Forall_map. eapply Forall_impl; [exact Hwf|].
    apply wf_value_Todo_toJS. }
  set (w0 := Persistence.dequeue (Persistence.mkWorld [] false true store [])).
  assert (Persistence.localStorage w0 !! js "todos" = Some (c :: r)) as Hs.
  { change (store !! js "todos" = Some (c :: r)).
    rewrite <- Hsv. apply lookup_insert_eq. }
  assert (Persistence.load w0 =
          Some (Persistence.setIsHydrated true
                  (Persistence.setTodos (map Todo_toJS items) w0))) as Hl.
  { rewrite (load_of_parsed w0 c r Hs), Hp. cbn [Persistence.Array_map].
    rewrite mapM_withPriority by (apply Forall_map; by apply Forall_forall).
    cbn [default]. rewrite map_map. do 3 f_equal.
    apply map_ext. apply loadedItem_Todo_toJS. }
  exists (Persistence.setItem (js "todos") sv
            (Persistence.setTodos (map Todo_toJS items) w)),
         (Persistence.save
            (Persistence.setIsHydrated true
               (Persistence.setTodos (map Todo_toJS items) w0))).
  split.
  { cbn [Persistence.step]. unfold Persistence.save.
    cbn [Persistence.setTodos Persistence.isHydrated Persistence.todos].
    by rewrite Hh. }
  change (Persistence.localStorage
            (Persistence.setItem (js "todos") sv
               (Persistence.setTodos (map Todo_toJS items) w))) with store.
  split.
  { unfold nextSession.
    cbn [Persistence.run Persistence.step Persistence.mount Persistence.save
         Persistence.isHydrated Persistence.microtaskQueued].
    fold w0. by rewrite Hl. }
  split; [reflexivity|]. split; [reflexivity|].
  change (<[js "todos" := sv]> store = store).
  unfold store. apply insert_insert_eq.
Qed.

Lemma saved_items_restored_witness :
  let w := Persistence.mkWorld [] true false ∅ [] in
  let items := [mkTodo 1730620800000 (js "Buy milk") false high;
                mkTodo 1730620800001 (js "Say " ++ QUOTE :: js "hi" ++ [QUOTE]) true low] in
  Persistence.isHydrated w = true
  /\ Forall wf_todo items
  /\ exists w1 w2 : Persistence.World,
       Persistence.step (Persistence.SetTodos (map Todo_toJS items)) w = Some w1
       /\ nextSession (Persistence.localStorage w1) = Some w2
       /\ Persistence.todos w2 = map Todo_toJS items.
Proof.
  cbn zeta.
  assert (Forall wf_todo
            [mkTodo 1730620800000 (js "Buy milk") false high;
             mkTodo 1730620800001 (js "Say " ++ QUOTE :: js "hi" ++ [QUOTE]) true low])
    as Hwf.
  { repeat constructor; cbn; try lia; by apply wf_string_literal. }
  split; [reflexivity|]. split; [exact Hwf|].
  destruct (saved_items_restored (Persistence.mkWorld [] true false ∅ []) _
              eq_refl Hwf) as (w1 & w2 & H1 & H2 & H3 & _).
  exists w1, w2. split; [exact H1|]. split; [exact H2 | exact H3].
Defined.

(** X13: stored items that the load cannot read are lost for good. When
    the key [todos] holds a text that does not parse, or that parses as
    something other than an array, or as an array with a [null] in it,
    the session starts with no items and the write that follows the load
    replaces the stored text by the empty array. The same happens, with
    nothing lost, when the key is absent or holds the empty text. *)
Theorem unreadable_store_overwritten (store : gmap (list N) (list N)) :
  (store !! js "todos" = None
   \/ store !! js "todos" = Some []
   \/ exists sv, store !! js "todos" = Some sv /\ unreadable sv) ->
  exists w : Persistence.World,
    nextSession store = Some w
    /\ Persistence.todos w = []
    /\ Persistence.isHydrated w = true
    /\ Persistence.localStorage w = <[js "todos" := js "[]"]> store
    /\ Persistence.writes w = [(js "todos", js "[]")].
Proof.
  intros Hstore. unfold nextSession.
  cbn [Persistence.run Persistence.step Persistence.mount Persistence.save
       Persistence.isHydrated Persistence.microtaskQueued].
  set (w0 := Persistence.dequeue (Persistence.mkWorld [] false true store [])).
  assert (Persistence.load w0 =
          Some (Persistence.setIsHydrated true (Persistence.setTodos [] w0)))
    as Hl.
  { destruct Hstore as [Hs | [Hs | (sv & Hs & Hu)]].
    - unfold Persistence.load. cbn [w0 Persistence.dequeue Persistence.localStorage].
      by rewrite Hs.
    - unfold Persistence.load. cbn [w0 Persistence.dequeue Persistence.localStorage].
      by rewrite Hs.
    - destruct sv as [|c r].
      + unfold Persistence.load.
        cbn [w0 Persistence.dequeue Persistence.localStorage]. by rewrite Hs.
      + by apply (unreadable_load w0 c r). }
  rewrite Hl. eexists. split; [reflexivity|].
  unfold Persistence.save.
  cbn [Persistence.setIsHydrated Persistence.setTodos Persistence.setItem
       Persistence.isHydrated Persistence.todos Persistence.localStorage
       Persistence.writes Persistence.dequeue w0].
  rewrite JSON_stringify_empty_array. done.
Qed.

Lemma unreadable_store_overwritten_witness :
  let store : gmap (list N) (list N) :=
    {[ js "todos" := json_text "{'id':1,'text':'a'}" ]} in
  (store !! js "todos" = None
   \/ store !! js "todos" = Some []
   \/ exists sv, store !! js "todos" = Some sv /\ unreadable sv)
  /\ exists w : Persistence.World,
       nextSession store = Some w
       /\ Persistence.todos w = []
       /\ Persistence.localStorage w !! js "todos" = Some (js "[]").
Proof.
  cbn zeta.
  assert ((({[ js "todos" := json_text "{'id':1,'text':'a'}" ]}
            : gmap (list N) (list N)) !! js "todos" = None)
          \/ (({[ js "todos" := json_text "{'id':1,'text':'a'}" ]}
               : gmap (list N) (list N)) !! js "todos" = Some [])
          \/ exists sv,
               ({[ js "todos" := json_text "{'id':1,'text':'a'}" ]}
                : gmap (list N) (list N)) !! js "todos" = Some sv
               /\ unreadable sv) as Hu.
  { right. right. eexists. split; [apply lookup_singleton_eq|].
    right. eexists. split; [vm_compute; reflexivity|].
    left. intros elems. discriminate. }
  split; [exact Hu|].
  destruct (unreadable_store_overwritten _ Hu) as (w & Hw & Ht & _ & Hs & _).
  exists w. split; [exact Hw|]. split; [exact Ht|].
  rewrite Hs. apply lookup_insert_eq.
Defined.
